(** * Reduce-by-key test program and error-reporting layer of CUB

    A shallow embedding of [test/test_device_reduce_by_key.cu] and
    [cub/util_debug.cuh]:

    - [Solve], the sequential reference of reduce-by-key, over arrays with
      checked accesses and C [int] arithmetic;
    - the two [Dispatch] entry points of the test (direct and through the
      nested-launch kernel [CDPDispatchKernel]);
    - [Debug], the wrapper every runtime call goes through.

    [DeviceReduce::ReduceByKey] itself is not part of these two files.  The
    entry points take it as a parameter; where a statement is about what it
    does, it is modelled from the specification and marked as such. *)

From stdpp Require Import base option list strings.
From Stdlib Require Import ZArith Lia.

Local Open Scope Z_scope.

(** ** C [int] and checked array accesses *)

(** The largest [int]. *)
Definition INT_MAX : Z := 2147483647.

(** The arrays [Solve] reads and writes. *)
Inductive Array := keys_in | values_in | keys_reference | values_reference.

(** What the C++ standard leaves undefined and [Solve] could run into. *)
Inductive Fault :=
| OutOfBounds (a : Array) (index : Z)
| SignedOverflow.

(** A computation that ends with a value or in undefined behaviour. *)
Inductive exec (A : Type) : Type :=
| Ok (a : A)
| Undefined (f : Fault).
Arguments Ok {A} a.
Arguments Undefined {A} f.

#[global] Instance exec_ret : MRet exec := fun A a => Ok a.
#[global] Instance exec_bind : MBind exec := fun A B k m =>
  match m with
  | Ok a => k a
  | Undefined f => Undefined f
  end.

(** [x++] on an [int]: overflow of a signed integer is undefined. *)
Definition int_incr (x : Z) : exec Z :=
  if decide (x + 1 <= INT_MAX) then Ok (x + 1) else Undefined SignedOverflow.

(** [a[i]] as an rvalue. *)
Definition load {A} (name : Array) (a : list A) (i : Z) : exec A :=
  if decide (0 <= i) then
    match a !! Z.to_nat i with
    | Some x => Ok x
    | None => Undefined (OutOfBounds name i)
    end
  else Undefined (OutOfBounds name i).

(** [a[i] = x]. *)
Definition store {A} (name : Array) (a : list A) (i : Z) (x : A) : exec (list A) :=
  if decide (0 <= i < Z.of_nat (length a)) then Ok (<[Z.to_nat i := x]> a)
  else Undefined (OutOfBounds name i).

(** ** [Solve]: the sequential reference *)

Section Solve.
Context {KeyT ValueT : Type}.
Variable equality_op : KeyT -> KeyT -> bool.
Variable reduction_op : ValueT -> ValueT -> ValueT.
Variable h_keys_in : list KeyT.
Variable h_values_in : list ValueT.

(** The locals of [Solve] and the two reference arrays it fills. *)
Record SolveState := mkSolveState {
  previous : KeyT;
  aggregate : ValueT;
  num_segments : Z;
  h_keys_reference : list KeyT;
  h_values_reference : list ValueT
}.

(** The body of the loop over the subsequent items, at index [i]. *)
Definition Solve_body (i : Z) (s : SolveState) : exec SolveState :=
  k ← load keys_in h_keys_in i;
  s' ← (if negb (equality_op (previous s) k) then
          kr ← store keys_reference (h_keys_reference s) (num_segments s) (previous s);
          vr ← store values_reference (h_values_reference s) (num_segments s) (aggregate s);
          n ← int_incr (num_segments s);
          v ← load values_in h_values_in i;
          mret (mkSolveState (previous s) v n kr vr)
        else
          v ← load values_in h_values_in i;
          mret (mkSolveState (previous s) (reduction_op (aggregate s) v)
                             (num_segments s) (h_keys_reference s) (h_values_reference s)));
  mret (mkSolveState k (aggregate s') (num_segments s')
                     (h_keys_reference s') (h_values_reference s')).

(** [for (int i = 1; i < num_items; ++i)]: [trips] iterations from [i]. *)
Fixpoint Solve_loop (trips : nat) (i : Z) (s : SolveState) : exec SolveState :=
  match trips with
  | O => Ok s
  | S trips' =>
      s' ← Solve_body i s;
      i' ← int_incr i;
      Solve_loop trips' i' s'
  end.

(** [Solve] returns the number of segments; the reference arrays are
    passed in and returned, as the caller sees them afterwards. *)
Definition Solve (h_keys_reference0 : list KeyT) (h_values_reference0 : list ValueT)
    (num_items : Z) : exec (Z * list KeyT * list ValueT) :=
  previous0 ← load keys_in h_keys_in 0;
  aggregate0 ← load values_in h_values_in 0;
  s ← Solve_loop (Z.to_nat (num_items - 1)) 1
        (mkSolveState previous0 aggregate0 0 h_keys_reference0 h_values_reference0);
  kr ← store keys_reference (h_keys_reference s) (num_segments s) (previous s);
  vr ← store values_reference (h_values_reference s) (num_segments s) (aggregate s);
  n ← int_incr (num_segments s);
  mret (n, kr, vr).
End Solve.

Arguments mkSolveState {KeyT ValueT}.


(** ** Runs of a key sequence

    The vocabulary of the glossary: a run is a maximal contiguous piece of the
    input whose adjacent keys compare equal under the equality operator.  The
    operator is any boolean relation; nothing is assumed of it. *)

Section Runs.
Context {KeyT ValueT : Type}.
Variable equality_op : KeyT -> KeyT -> bool.
Variable reduction_op : ValueT -> ValueT -> ValueT.

(** A run is never empty: its first item and the items after it. *)
Definition run : Type := (KeyT * ValueT) * list (KeyT * ValueT).

(** The items of a run, in input order. *)
Definition run_items (r : run) : list (KeyT * ValueT) := r.1 :: r.2.

(** The last item of a run. *)
Definition run_last (r : run) : KeyT * ValueT := default r.1 (last r.2).

(** The key a run is reported under: the key of its last item, which is what
    [previous] holds when the run is closed. *)
Definition run_key (r : run) : KeyT := (run_last r).1.

(** The left fold of the reduction operator over the values of the run, in
    input order, starting from its first value. *)
Definition run_value (r : run) : ValueT := foldl reduction_op r.1.2 (r.2.*2).

(** What a run is reduced to. *)
Definition run_summary (r : run) : KeyT * ValueT := (run_key r, run_value r).

(** From key [x] on, every item compares equal to the one before it. *)
Fixpoint linked (x : KeyT) (l : list (KeyT * ValueT)) : bool :=
  match l with
  | [] => true
  | y :: l' => equality_op x y.1 && linked y.1 l'
  end.

(** Inside a run, adjacent keys compare equal. *)
Definition is_run (r : run) : bool := linked r.1.1 r.2.

(** No run extends into the next one. *)
Fixpoint separated (rs : list run) : bool :=
  match rs with
  | r1 :: rs' =>
      match rs' with
      | r2 :: _ => negb (equality_op (run_key r1) r2.1.1) && separated rs'
      | [] => true
      end
  | [] => true
  end.

(** [rs] are the maximal runs of [items], in input order. *)
Definition run_partition (items : list (KeyT * ValueT)) (rs : list run) : Prop :=
  concat (run_items <$> rs) = items /\ forallb is_run rs = true /\ separated rs = true.

(** The runs of [x :: l], computed from the right. *)
Fixpoint runs_of (x : KeyT * ValueT) (l : list (KeyT * ValueT)) : list run :=
  match l with
  | [] => [(x, [])]
  | y :: l' =>
      match runs_of y l' with
      | r :: rs => if equality_op x.1 y.1 then (x, run_items r) :: rs else (x, []) :: r :: rs
      | [] => [(x, [])]
      end
  end.

(** The maximal runs of [items]; there is none when there is no item. *)
Definition runs (items : list (KeyT * ValueT)) : list run :=
  match items with
  | [] => []
  | x :: l => runs_of x l
  end.

(** The loop of [Solve] as a fold over the items after the first: the pairs
    closed on the way, and the pair still open at the end. *)
Fixpoint Solve_scan (prev : KeyT) (agg : ValueT) (rest : list (KeyT * ValueT))
    : list (KeyT * ValueT) * (KeyT * ValueT) :=
  match rest with
  | [] => ([], (prev, agg))
  | (k, v) :: rest' =>
      if negb (equality_op prev k) then
        let '(out, open) := Solve_scan k v rest' in ((prev, agg) :: out, open)
      else Solve_scan k (reduction_op agg v) rest'
  end.

(** Everything [Solve] emits, as pairs. *)
Definition Solve_pairs (items : list (KeyT * ValueT)) : list (KeyT * ValueT) :=
  match items with
  | [] => []
  | (k0, v0) :: rest => let '(out, open) := Solve_scan k0 v0 rest in out ++ [open]
  end.
End Runs.

Arguments run : clear implicits.

(** ** The operators the test instantiates [Solve] with *)

(** Modelled from the spec: [cub::Equality] of [cub/thread/thread_operators.cuh],
    which is missing from the sources, at an integer type: [==]. *)
Definition Equality (a b : Z) : bool := a =? b.

(** Modelled from the spec: [cub::Sum] of [cub/thread/thread_operators.cuh],
    which is missing from the sources, at an integer type and on values whose
    sums stay in its range: [+]. *)
Definition Sum (a b : Z) : Z := a + b.

(** ** The runtime as the program sees it *)

(** [cudaError_t]: the status enumeration of the runtime; [cudaSuccess] is 0
    and every other value is a failure. *)
Definition cudaError_t : Type := Z.

(** [cudaSuccess]. *)
Definition cudaSuccess : cudaError_t := 0.

(** [blockIdx] and [threadIdx]. *)
Record dim3 := mkdim3 { dim_x : Z; dim_y : Z; dim_z : Z }.

(** Where a piece of [__host__ __device__] code is running ([NV_IF_TARGET]). *)
Inductive Target :=
| NV_IS_HOST
| NV_IS_DEVICE (blockIdx threadIdx : dim3).

(** What the program does to the runtime and the console, in the order it
    does it. *)
Inductive Event :=
| GetLastError (cleared : cudaError_t)
| StderrError (error : cudaError_t) (filename : string) (line : Z) (message : string)
| StderrFlush
| StdoutError (error : cudaError_t) (blockIdx threadIdx : dim3) (filename : string) (line : Z)
| StreamSync
| StdoutLog (message : string).

(** The memory of the device the test allocates: the output arrays, the run
    count, the two cells of the nested-dispatch path, and the bytes of the
    temporary storage. *)
Record DeviceMemory (KeyT ValueT : Type) := mkDeviceMemory {
  d_keys_out : list KeyT;
  d_values_out : list ValueT;
  d_num_runs : Z;
  d_temp_storage_bytes : Z;
  d_cdp_error : cudaError_t;
  d_temp_storage_data : list Z
}.
Arguments mkDeviceMemory {KeyT ValueT}.
Arguments d_keys_out {KeyT ValueT}.
Arguments d_values_out {KeyT ValueT}.
Arguments d_num_runs {KeyT ValueT}.
Arguments d_temp_storage_bytes {KeyT ValueT}.
Arguments d_cdp_error {KeyT ValueT}.
Arguments d_temp_storage_data {KeyT ValueT}.

(** The global error flag of the runtime, the trace of events, and the
    device memory. *)
Record World (KeyT ValueT : Type) := mkWorld {
  last_error : cudaError_t;
  trace : list Event;
  memory : DeviceMemory KeyT ValueT
}.
Arguments mkWorld {KeyT ValueT}.
Arguments last_error {KeyT ValueT}.
Arguments trace {KeyT ValueT}.
Arguments memory {KeyT ValueT}.

Section Runtime.
Context {KeyT ValueT : Type}.

(** [*d_cdp_error = e]. *)
Definition set_d_cdp_error (e : cudaError_t) (m : DeviceMemory KeyT ValueT)
    : DeviceMemory KeyT ValueT :=
  mkDeviceMemory (d_keys_out m) (d_values_out m) (d_num_runs m)
    (d_temp_storage_bytes m) e (d_temp_storage_data m).

(** [*d_temp_storage_bytes = n]. *)
Definition set_d_temp_storage_bytes (n : Z) (m : DeviceMemory KeyT ValueT)
    : DeviceMemory KeyT ValueT :=
  mkDeviceMemory (d_keys_out m) (d_values_out m) (d_num_runs m)
    n (d_cdp_error m) (d_temp_storage_data m).

(** [*d_num_runs = n]. *)
Definition set_d_num_runs (n : Z) (m : DeviceMemory KeyT ValueT)
    : DeviceMemory KeyT ValueT :=
  mkDeviceMemory (d_keys_out m) (d_values_out m) n
    (d_temp_storage_bytes m) (d_cdp_error m) (d_temp_storage_data m).

(** One more event at the end of the trace. *)
Definition emit (e : Event) (w : World KeyT ValueT) : World KeyT ValueT :=
  mkWorld (last_error w) (trace w ++ [e]) (memory w).

(** [cudaGetLastError()]: returns the flag and resets it to [cudaSuccess]. *)
Definition cudaGetLastError (w : World KeyT ValueT) : cudaError_t * World KeyT ValueT :=
  (last_error w, mkWorld cudaSuccess (trace w ++ [GetLastError (last_error w)]) (memory w)).

(** ** [cub/util_debug.cuh] *)

(** [cudaGetErrorString], which belongs to the runtime. *)
Variable cudaGetErrorString : cudaError_t -> string.

(** [Debug(error, filename, line)].  [CUB_STDERR] is the macro of that name:
    whether it is defined where the function is compiled. *)
Definition Debug (CUB_STDERR : bool) (target : Target)
    (error : cudaError_t) (filename : string) (line : Z) (w : World KeyT ValueT)
    : cudaError_t * World KeyT ValueT :=
  let w := (cudaGetLastError w).2 in
  let w :=
    if CUB_STDERR then
      if decide (error <> 0) then
        match target with
        | NV_IS_HOST =>
            emit StderrFlush
              (emit (StderrError error filename line (cudaGetErrorString error)) w)
        | NV_IS_DEVICE blockIdx threadIdx =>
            emit (StdoutError error blockIdx threadIdx filename line) w
        end
      else w
    else w in
  (error, w).
End Runtime.

(** ** Host code that can leave the process *)

(** A call returns, or the process is left through [exit(code)]. *)
Inductive result (A : Type) : Type :=
| Returned (a : A)
| Exited (code : Z).
Arguments Returned {A} a.
Arguments Exited {A} code.

(** ** The entry points of the test *)

Section Dispatch.
Context {KeyT ValueT : Type}.

(** [DeviceReduce::ReduceByKey], as the test calls it: the scratch pointer
    (null or an address), the byte count (passed by reference, so returned
    with the status), the inputs, the reduction operator, the problem size,
    the stream and the debug flag.  The output arrays and the run count are
    those of the device memory.  The call takes no equality operator. *)
Definition ReduceByKeyT : Type :=
  option Z -> Z -> list KeyT -> list ValueT -> (ValueT -> ValueT -> ValueT) ->
  Z -> Z -> bool -> World KeyT ValueT -> (cudaError_t * Z) * World KeyT ValueT.

Variable ReduceByKey : ReduceByKeyT.

(** The timing loop of [Dispatch(Int2Type<CUB>, ...)]: [trips] calls, each
    overwriting [error] and updating [temp_storage_bytes]. *)
Fixpoint Dispatch_CUB_loop (trips : nat) (error : cudaError_t)
    (d_temp_storage : option Z) (temp_storage_bytes : Z)
    (d_keys_in : list KeyT) (d_values_in : list ValueT)
    (reduction_op : ValueT -> ValueT -> ValueT)
    (num_items : Z) (stream : Z) (debug_synchronous : bool)
    (w : World KeyT ValueT) : (cudaError_t * Z) * World KeyT ValueT :=
  match trips with
  | O => ((error, temp_storage_bytes), w)
  | S trips' =>
      let '((error', temp_storage_bytes'), w') :=
        ReduceByKey d_temp_storage temp_storage_bytes d_keys_in d_values_in
          reduction_op num_items stream debug_synchronous w in
      Dispatch_CUB_loop trips' error' d_temp_storage temp_storage_bytes'
        d_keys_in d_values_in reduction_op num_items stream debug_synchronous w'
  end.

(** [Dispatch(Int2Type<CUB>, ...)].  The parameter [equality_op] has no name
    in the source and is not used. *)
Definition Dispatch_CUB (timing_timing_iterations : Z)
    (d_temp_storage : option Z) (temp_storage_bytes : Z)
    (d_keys_in : list KeyT) (d_values_in : list ValueT)
    (equality_op : KeyT -> KeyT -> bool)
    (reduction_op : ValueT -> ValueT -> ValueT)
    (num_items : Z) (stream : Z) (debug_synchronous : bool)
    (w : World KeyT ValueT) : (cudaError_t * Z) * World KeyT ValueT :=
  Dispatch_CUB_loop (Z.to_nat timing_timing_iterations) cudaSuccess
    d_temp_storage temp_storage_bytes d_keys_in d_values_in reduction_op
    num_items stream debug_synchronous w.

(** [CDPDispatchKernel]: the nested call on stream 0, then the status and
    the byte count written to their cells. *)
Definition CDPDispatchKernel (timing_timing_iterations : Z)
    (d_temp_storage : option Z) (temp_storage_bytes : Z)
    (d_keys_in : list KeyT) (d_values_in : list ValueT)
    (equality_op : KeyT -> KeyT -> bool)
    (reduction_op : ValueT -> ValueT -> ValueT)
    (num_items : Z) (debug_synchronous : bool)
    (w : World KeyT ValueT) : World KeyT ValueT :=
  let '((error, temp_storage_bytes'), w) :=
    Dispatch_CUB timing_timing_iterations d_temp_storage temp_storage_bytes
      d_keys_in d_values_in equality_op reduction_op num_items 0 debug_synchronous w in
  mkWorld (last_error w) (trace w)
    (set_d_temp_storage_bytes temp_storage_bytes' (set_d_cdp_error error (memory w))).

(** The two cells of the device memory the nested-dispatch path copies
    back to the host. *)
Inductive DeviceCell := cell_temp_storage_bytes | cell_cdp_error.

(** What a cell holds ([size_t] and [cudaError_t] are both integers here). *)
Definition read_cell (cell : DeviceCell) (m : DeviceMemory KeyT ValueT) : Z :=
  match cell with
  | cell_temp_storage_bytes => d_temp_storage_bytes m
  | cell_cdp_error => d_cdp_error m
  end.

(** What the runtime answers to a launch ([grid], [block], dynamic shared
    memory, [stream]) and to a copy from a cell of the device; each copy
    has an answer of its own. *)
Variable launch_status : Z -> Z -> Z -> Z -> cudaError_t.
Variable cudaMemcpy_status : DeviceCell -> DeviceMemory KeyT ValueT -> cudaError_t.
Variable cudaGetErrorString : cudaError_t -> string.

(** [cudaMemcpy(&host, cell, ..., cudaMemcpyDeviceToHost)]: the status and
    the value of the host variable afterwards; a failure is left in the error
    flag and leaves the host variable as it was. *)
Definition cudaMemcpy_to_host (cell : DeviceCell) (host : Z)
    (w : World KeyT ValueT) : (cudaError_t * Z) * World KeyT ValueT :=
  let status := cudaMemcpy_status cell (memory w) in
  if decide (status = cudaSuccess) then ((cudaSuccess, read_cell cell (memory w)), w)
  else ((status, host), mkWorld status (trace w) (memory w)).

(** [triple_chevron(grid, block, shared_mem, stream).doit(kernel, ...)]: a
    launch that is refused leaves its status in the error flag and runs
    nothing; the test only launches one block of one thread. *)
Definition triple_chevron_doit (grid block shared_mem stream : Z)
    (kernel : World KeyT ValueT -> World KeyT ValueT)
    (w : World KeyT ValueT) : cudaError_t * World KeyT ValueT :=
  let status := launch_status grid block shared_mem stream in
  if decide (status = cudaSuccess) then (cudaSuccess, kernel w)
  else (status, mkWorld status (trace w) (memory w)).

(** [CubDebugExit(e)] in the test, which defines [CUB_STDERR]; [k] is the
    rest of the function. *)
Definition CubDebugExit {A} (e : cudaError_t) (filename : string) (line : Z)
    (k : World KeyT ValueT -> result A * World KeyT ValueT)
    (w : World KeyT ValueT) : result A * World KeyT ValueT :=
  let '(e', w') := Debug cudaGetErrorString true NV_IS_HOST e filename line w in
  if decide (e' <> 0) then (Exited 1, w') else k w'.

(** [Dispatch(Int2Type<CDP>, ...)]. *)
Definition Dispatch_CDP (timing_timing_iterations : Z)
    (d_temp_storage : option Z) (temp_storage_bytes : Z)
    (d_keys_in : list KeyT) (d_values_in : list ValueT)
    (equality_op : KeyT -> KeyT -> bool)
    (reduction_op : ValueT -> ValueT -> ValueT)
    (num_items : Z) (stream : Z) (debug_synchronous : bool)
    (w : World KeyT ValueT) : result (cudaError_t * Z) * World KeyT ValueT :=
  let file := "test_device_reduce_by_key.cu"%string in
  let '(retval, w) :=
    triple_chevron_doit 1 1 0 stream
      (CDPDispatchKernel timing_timing_iterations d_temp_storage temp_storage_bytes
         d_keys_in d_values_in equality_op reduction_op num_items debug_synchronous) w in
  CubDebugExit retval file 236 (fun w =>
    let '((copied, temp_storage_bytes), w) :=
      cudaMemcpy_to_host cell_temp_storage_bytes temp_storage_bytes w in
    CubDebugExit copied file 239 (fun w =>
      let '((copied, retval), w) := cudaMemcpy_to_host cell_cdp_error retval w in
      CubDebugExit copied file 245 (fun w =>
        (Returned (retval, temp_storage_bytes), w)) w) w) w.
End Dispatch.

(** ** The device-wide routine, from the specification

    [cub/device/device_reduce.cuh] is not among the sources.  What follows
    is the dispatch, sizing and orchestration of its sections 3 and 4; the
    bodies of the kernels are parameters, as the specification leaves them
    out of its scope. *)

(** Modelled from the spec: TuningPolicy (section 3), the record a policy
    band holds; [DeviceReduce::ReduceByKey] and its policies are missing. *)
Record TuningPolicy := mkTuningPolicy {
  tile_size : Z;
  block_threads : Z;
  items_per_thread : Z;
  load_algorithm_tag : Z;
  store_algorithm_tag : Z
}.

(** Modelled from the spec: PolicySelector (section 4.2), missing from the
    sources.  The table is ordered by architecture threshold; the band
    chosen is the last one the architecture version reaches, and the lowest
    supported band when it reaches none. *)
Fixpoint PolicySelector (table : list (Z * TuningPolicy)) (lowest : TuningPolicy)
    (arch_version : Z) : TuningPolicy :=
  match table with
  | [] => lowest
  | (threshold, policy) :: table' =>
      if decide (threshold <= arch_version) then PolicySelector table' policy arch_version
      else lowest
  end.

(** Modelled from the spec: one entry of a TemporaryStorageRequest once it is
    placed (section 3): its id, offset, size and alignment; the layout code is
    missing from the sources. *)
Record Region := mkRegion {
  region_id : nat;
  region_offset : Z;
  byte_size : Z;
  alignment : Z
}.

(** Modelled from the spec: offsets are aligned (section 4.3), the alignment
    helper being missing: the least multiple of [a] that is not below [x]. *)
Definition align_up (x a : Z) : Z := (x + a - 1) / a * a.

(** Modelled from the spec: TemporaryStorageLayout (section 4.3), missing from
    the sources.  The regions are laid out in order, each at the next offset
    aligned for it; the result is the regions and the bytes they take. *)
Fixpoint place_regions (next : Z) (id : nat) (requests : list (Z * Z)) : list Region * Z :=
  match requests with
  | [] => ([], next)
  | (size, align) :: requests' =>
      let offset := align_up next align in
      let '(regions, total) := place_regions (offset + size) (S id) requests' in
      (mkRegion id offset size align :: regions, total)
  end.

(** Modelled from the spec: the sizes and alignments of the two record types
    the layout holds (section 4.3), whose declarations are missing. *)
Record ScratchTypes := mkScratchTypes {
  sizeOf_AggregateRecord : Z;
  alignOf_AggregateRecord : Z;
  sizeOf_counters : Z;
  alignOf_counters : Z
}.

(** Modelled from the spec: [numTiles = ceil(numItems / tile_size)]
    (section 4.3). *)
Definition numTiles (policy : TuningPolicy) (numItems : Z) : Z :=
  (numItems + tile_size policy - 1) / tile_size policy.

(** Modelled from the spec: the TemporaryStorageRequest of reduce-by-key
    (sections 3 and 4.3): the per-tile aggregate and status array, then the
    fixed-size counters. *)
Definition TemporaryStorageRequest (policy : TuningPolicy) (types : ScratchTypes)
    (numItems : Z) : list (Z * Z) :=
  [ (numTiles policy numItems * sizeOf_AggregateRecord types, alignOf_AggregateRecord types);
    (sizeOf_counters types, alignOf_counters types) ].

(** Modelled from the spec: TemporaryStorageLayout (section 4.3), missing from
    the sources: the request, placed from offset 0. *)
Definition TemporaryStorageLayout (policy : TuningPolicy) (types : ScratchTypes)
    (numItems : Z) : list Region * Z :=
  place_regions 0 0 (TemporaryStorageRequest policy types numItems).

(** Modelled from the spec: the two stages of the pipeline (section 4.4),
    whose kernels are missing from the sources. *)
Inductive PipelineStage := StageA | StageB.

(** The name a stage is logged under. *)
Definition stage_name (stage : PipelineStage) : string :=
  match stage with
  | StageA => "tile-local scan with lookback"
  | StageB => "materialization"
  end.

(** Modelled from the spec: the calls of the hardware runtime the dispatch
    makes (sections 4.1, 4.4 and 5), the code that makes them being missing:
    the device query of the size computation, the launch of a stage, and the
    synchronization point after a stage. *)
Inductive RuntimeCall :=
| DeviceQuery
| Launch (stage : PipelineStage) (grid block shared_mem stream : Z)
| Synchronize (stage : PipelineStage) (stream : Z).

Section KernelPipeline.
Context {KeyT ValueT : Type}.

(** What the dispatch is compiled and run with: the architecture, the policy
    table, the sizes of the scratch records, where it runs, and whether
    diagnostics are compiled in. *)
Variable arch_version : Z.
Variable policy_table : list (Z * TuningPolicy).
Variable lowest_policy : TuningPolicy.
Variable types : ScratchTypes.
Variable target : Target.
Variable CUB_STDERR : bool.

(** The runtime: what it answers to a call, given the error flag and the
    device memory at the time of the call; its error strings; and the source
    position [Debug] is given at each call. *)
Variable runtime_status :
  RuntimeCall -> cudaError_t -> DeviceMemory KeyT ValueT -> cudaError_t.
Variable cudaGetErrorString : cudaError_t -> string.
Variable call_site : RuntimeCall -> string * Z.

(** The body of a stage for one tile: it sees the regions of the scratch,
    the inputs and the operator, and works on the device memory. *)
Variable tile_kernel :
  PipelineStage -> Z -> list Region -> list KeyT -> list ValueT ->
  (ValueT -> ValueT -> ValueT) -> Z -> DeviceMemory KeyT ValueT -> DeviceMemory KeyT ValueT.

(** Modelled from the spec: the tiles of a stage (section 4.4), in order, the
    stage kernels being missing from the sources. *)
Fixpoint run_tiles (stage : PipelineStage) (count : nat) (tile : Z) (regions : list Region)
    (d_keys_in : list KeyT) (d_values_in : list ValueT)
    (reduction_op : ValueT -> ValueT -> ValueT) (num_items : Z)
    (m : DeviceMemory KeyT ValueT) : DeviceMemory KeyT ValueT :=
  match count with
  | O => m
  | S count' =>
      run_tiles stage count' (tile + 1) regions d_keys_in d_values_in reduction_op num_items
        (tile_kernel stage tile regions d_keys_in d_values_in reduction_op num_items m)
  end.

(** Modelled from the spec: the ErrorReportingLayer around a runtime call
    (section 4.6: every hardware-runtime call is wrapped), the dispatch code
    being missing.  A failure is left in the error flag by the runtime; the
    status goes through [Debug] and is returned. *)
Definition wrapped_call (call : RuntimeCall) (w : World KeyT ValueT)
    : cudaError_t * World KeyT ValueT :=
  let status := runtime_status call (last_error w) (memory w) in
  let w := if decide (status = cudaSuccess) then w
           else mkWorld status (trace w) (memory w) in
  Debug cudaGetErrorString CUB_STDERR target status (call_site call).1 (call_site call).2 w.

(** Modelled from the spec: one PipelineStage (sections 3, 4.1, 4.6 and 7),
    missing from the sources.  The launch is a wrapped runtime call; a launch
    that fails runs nothing and its status is returned.  With
    [debug_synchronous] the stage is followed by a synchronization point,
    a wrapped runtime call too, whose failure is returned, and by a
    diagnostic log. *)
Definition run_stage (stage : PipelineStage) (policy : TuningPolicy) (regions : list Region)
    (d_keys_in : list KeyT) (d_values_in : list ValueT)
    (reduction_op : ValueT -> ValueT -> ValueT) (num_items : Z)
    (stream : Z) (debug_synchronous : bool)
    (w : World KeyT ValueT) : cudaError_t * World KeyT ValueT :=
  let tiles := numTiles policy num_items in
  let '(error, w) := wrapped_call (Launch stage tiles (block_threads policy) 0 stream) w in
  if decide (error <> 0) then (error, w)
  else
    let m := run_tiles stage (Z.to_nat tiles) 0 regions d_keys_in d_values_in
               reduction_op num_items (memory w) in
    let w := mkWorld (last_error w) (trace w) m in
    if debug_synchronous then
      let '(error, w) := wrapped_call (Synchronize stage stream) (emit StreamSync w) in
      if decide (error <> 0) then (error, w)
      else (cudaSuccess, emit (StdoutLog (stage_name stage)) w)
    else (cudaSuccess, w).

(** Modelled from the spec: the propagation policy of section 7, the code
    that applies it being missing: a stage that fails abandons the call with
    its status; otherwise the call goes on. *)
Definition abandon_on_failure (temp_storage_bytes : Z)
    (stage : cudaError_t * World KeyT ValueT)
    (rest : World KeyT ValueT -> (cudaError_t * Z) * World KeyT ValueT)
    : (cudaError_t * Z) * World KeyT ValueT :=
  if decide (stage.1 <> 0) then ((stage.1, temp_storage_bytes), stage.2)
  else rest stage.2.

(** Modelled from the spec: KernelPipeline (sections 4.1 and 4.4), missing from
    the sources: stage A, then stage B, over the regions of the scratch; zero
    runs are reported when there is no tile to report them. *)
Definition KernelPipeline (policy : TuningPolicy) (regions : list Region)
    (temp_storage_bytes : Z) (d_keys_in : list KeyT) (d_values_in : list ValueT)
    (reduction_op : ValueT -> ValueT -> ValueT) (num_items : Z)
    (stream : Z) (debug_synchronous : bool)
    (w : World KeyT ValueT) : (cudaError_t * Z) * World KeyT ValueT :=
  abandon_on_failure temp_storage_bytes
    (run_stage StageA policy regions d_keys_in d_values_in reduction_op num_items
       stream debug_synchronous w)
    (fun w =>
       abandon_on_failure temp_storage_bytes
         (run_stage StageB policy regions d_keys_in d_values_in reduction_op num_items
            stream debug_synchronous w)
         (fun w =>
            let w := if decide (numTiles policy num_items <= 0)
                     then mkWorld (last_error w) (trace w) (set_d_num_runs 0 (memory w))
                     else w in
            ((cudaSuccess, temp_storage_bytes), w))).

(** Modelled from the spec: DispatchEntrypoint (section 4.1), that is
    [DeviceReduce::ReduceByKey], which is missing from the sources.  The size
    computation comes first, in a size query and in an execute call (which
    partitions the scratch by its layout); it asks the device, and when that
    fails the call returns the status and leaves the byte count alone.  With
    a null scratch pointer the call then reports the byte count of the layout
    and does nothing else; otherwise it runs the pipeline over the regions
    of the layout. *)
Definition ReduceByKey_model : @ReduceByKeyT KeyT ValueT :=
  fun d_temp_storage temp_storage_bytes d_keys_in d_values_in reduction_op
      num_items stream debug_synchronous w =>
  let policy := PolicySelector policy_table lowest_policy arch_version in
  let layout := TemporaryStorageLayout policy types num_items in
  let '(error, w) := wrapped_call DeviceQuery w in
  if decide (error <> 0) then ((error, temp_storage_bytes), w)
  else
    match d_temp_storage with
    | None => ((cudaSuccess, layout.2), w)
    | Some _ =>
        KernelPipeline policy layout.1 temp_storage_bytes d_keys_in d_values_in
          reduction_op num_items stream debug_synchronous w
    end.
End KernelPipeline.

(** ** Vocabulary of the statements *)

(** Console output of [Debug]. *)
Definition is_console_output (e : Event) : bool :=
  match e with
  | StderrError _ _ _ _ | StderrFlush | StdoutError _ _ _ _ _ => true
  | _ => false
  end.

(** A routine whose outcome does not depend on the stream it is given. *)
Definition stream_blind {KeyT ValueT : Type} (R : @ReduceByKeyT KeyT ValueT) : Prop :=
  forall d_temp_storage temp_storage_bytes d_keys_in d_values_in reduction_op
         num_items stream debug_synchronous w,
    R d_temp_storage temp_storage_bytes d_keys_in d_values_in reduction_op
      num_items stream debug_synchronous w
    = R d_temp_storage temp_storage_bytes d_keys_in d_values_in reduction_op
        num_items 0 debug_synchronous w.



(** The state of [Solve] when the pairs [w] have been written to reference
    arrays that started as [kr0] and [vr0], and [open] is the pair being
    accumulated. *)
Definition state_after {KeyT ValueT : Type} (kr0 : list KeyT) (vr0 : list ValueT)
    (w : list (KeyT * ValueT)) (open : KeyT * ValueT) : SolveState :=
  mkSolveState open.1 open.2 (Z.of_nat (length w))
    (w.*1 ++ drop (length w) kr0) (w.*2 ++ drop (length w) vr0).

(** A stand-in for the kernel bodies on integer keys and values, to run the
    pipeline on examples: stage A does nothing and the last tile of stage B
    writes what the reference computes. *)
Definition sequential_tile_kernel (policy : TuningPolicy) (stage : PipelineStage) (tile : Z)
    (regions : list Region) (d_keys_in : list Z) (d_values_in : list Z)
    (reduction_op : Z -> Z -> Z) (num_items : Z) (m : DeviceMemory Z Z) : DeviceMemory Z Z :=
  match stage with
  | StageA => m
  | StageB =>
      if decide (tile = numTiles policy num_items - 1) then
        let ps := Solve_pairs Equality reduction_op (zip d_keys_in d_values_in) in
        mkDeviceMemory (ps.*1 ++ drop (length ps) (d_keys_out m))
          (ps.*2 ++ drop (length ps) (d_values_out m))
          (Z.of_nat (length ps)) (d_temp_storage_bytes m) (d_cdp_error m)
          (d_temp_storage_data m)
      else m
  end.

(** A policy of tiles of four items for the examples. *)
Definition example_policy : TuningPolicy := mkTuningPolicy 4 2 2 0 0.

(** Scratch records of 16 and 4 bytes. *)
Definition example_types : ScratchTypes := mkScratchTypes 16 8 4 4.

(** The device memory of the test before a run: cleared outputs. *)
Definition cleared_memory (num_items : nat) : DeviceMemory Z Z :=
  mkDeviceMemory (replicate num_items 0) (replicate num_items 0) 0 0 0 [].

(** The runtime before a run: no pending error, nothing traced. *)
Definition example_world (num_items : nat) : World Z Z :=
  mkWorld cudaSuccess [] (cleared_memory num_items).

(** A runtime that accepts every call. *)
Definition accepting_runtime (call : RuntimeCall) (flag : cudaError_t)
    (m : DeviceMemory Z Z) : cudaError_t := cudaSuccess.


(** A runtime whose device query reports the error that is pending, if any,
    and whose other calls succeed. *)
Definition sticky_runtime (call : RuntimeCall) (flag : cudaError_t)
    (m : DeviceMemory Z Z) : cudaError_t :=
  match call with
  | DeviceQuery => flag
  | _ => cudaSuccess
  end.

(** The pipeline on the examples, for a runtime: architecture 350 in a table
    of two bands, on the host, with diagnostics. *)
Definition example_model
    (runtime_status : RuntimeCall -> cudaError_t -> DeviceMemory Z Z -> cudaError_t)
    : @ReduceByKeyT Z Z :=
  ReduceByKey_model 350 [(300, example_policy); (600, mkTuningPolicy 8 4 2 1 1)]
    example_policy example_types NV_IS_HOST true
    runtime_status (fun _ => "error"%string)
    (fun _ => ("dispatch_reduce_by_key.cuh"%string, 0))
    (sequential_tile_kernel example_policy).

(** The pipeline on the examples with a runtime that accepts every call. *)
Definition example_ReduceByKey : @ReduceByKeyT Z Z := example_model accepting_runtime.

(** A routine that can only be given the default stream: on another stream
    it fails with status 400 and does nothing; on the default stream it
    succeeds and does nothing. *)
Definition default_stream_ReduceByKey : @ReduceByKeyT Z Z :=
  fun d_temp_storage temp_storage_bytes d_keys_in d_values_in reduction_op
      num_items stream debug_synchronous w =>
  if decide (stream = 0) then ((cudaSuccess, temp_storage_bytes), w)
  else ((400, temp_storage_bytes), mkWorld 400 (trace w) (memory w)).

(** ** More vocabulary for the reference *)

(** The number of items of [l] whose key does not compare equal to the key
    before it, [prev] being the key before the first. *)
Fixpoint boundaries {KeyT : Type} (equality_op : KeyT -> KeyT -> bool)
    (prev : KeyT) (l : list KeyT) : nat :=
  match l with
  | [] => 0
  | k :: l' => (if equality_op prev k then 0 else 1) + boundaries equality_op k l'
  end.

(** ** A device routine for the examples of the entry points *)

(** A routine whose first call fails with status 2 and whose later calls
    succeed; it tells them apart by the run count, which it sets to 1. *)
Definition flaky_ReduceByKey : @ReduceByKeyT Z Z :=
  fun d_temp_storage temp_storage_bytes d_keys_in d_values_in reduction_op
      num_items stream debug_synchronous w =>
  if decide (d_num_runs (memory w) = 0)
  then ((2, temp_storage_bytes),
        mkWorld 2 (trace w) (set_d_num_runs 1 (memory w)))
  else ((cudaSuccess, temp_storage_bytes), w).

(** ** Test generation: [Initialize] *)

(** The smallest [int]. *)
Definition INT_MIN : Z := -2147483648.

(** [a + b] on [int]s. *)
Definition int_add (a b : Z) : exec Z :=
  if decide (INT_MIN <= a + b <= INT_MAX) then Ok (a + b) else Undefined SignedOverflow.

(** [a * b] on [int]s. *)
Definition int_mul (a b : Z) : exec Z :=
  if decide (INT_MIN <= a * b <= INT_MAX) then Ok (a * b) else Undefined SignedOverflow.

(** The line feed of a format string. *)
Definition newline : string := String (Ascii.ascii_of_nat 10) EmptyString.

(** What [Initialize] prints when [g_verbose] is set: text, and the array
    handed to [DisplayResults] of the test utilities. *)
Inductive Printed (T : Type) : Type :=
| PrintedText (s : string)
| DisplayedResults (h : list T) (n : Z).
Arguments PrintedText {T} s.
Arguments DisplayedResults {T} h n.

Section Initialize.
Context {T : Type}.

(** [InitValue(INTEGER_SEED, value, index)] of the test utilities, which are
    not among the sources: the value it gives for an index. *)
Variable InitValue : Z -> T.

(** What [repeat] holds once [RandomBits] of the test utilities, which are
    not among the sources, has drawn it and it has been scaled in double
    precision and cast to [int] (lines 289 and 290): a function of
    [entropy_reduction], [max_segment] and the number of the segment. *)
Variable scaled_random : Z -> Z -> Z -> Z.

Variable g_verbose : bool.

(** The number of repeating occurrences selected for a segment. *)
Definition Initialize_repeat (entropy_reduction num_items max_segment key : Z) : Z :=
  if decide (max_segment < 0) then num_items
  else if decide (max_segment < 2) then 1
  else Z.max 1 (scaled_random entropy_reduction max_segment key).

(** The inner loop, [trips] iterations from [j]: [h_in[j]] is given the value
    of [key] and [j] goes up. *)
Fixpoint Initialize_fill (trips : nat) (j key : Z) (h_in : list T) : exec (Z * list T) :=
  match trips with
  | O => Ok (j, h_in)
  | S trips' =>
      h ← store keys_in h_in j (InitValue key);
      j' ← int_incr j;
      Initialize_fill trips' j' key h
  end.

(** One segment: the bound [CUB_MIN(i + repeat, num_items)], the inner loop
    up to it, and [key++]; the result is the new [i], [key] and array. *)
Definition Initialize_segment (entropy_reduction num_items max_segment : Z)
    (key i : Z) (h_in : list T) : exec (Z * Z * list T) :=
  bound ← int_add i (Initialize_repeat entropy_reduction num_items max_segment key);
  r ← Initialize_fill (Z.to_nat (Z.min bound num_items - i)) i key h_in;
  key' ← int_incr key;
  mret (r.1, key', r.2).

(** The outer loop [while (i < num_items)].  [None] stands for a loop that
    has not finished within [fuel] segments. *)
Fixpoint Initialize_loop (fuel : nat) (entropy_reduction num_items max_segment : Z)
    (key i : Z) (h_in : list T) : option (exec (list T)) :=
  if decide (i < num_items) then
    match fuel with
    | O => None
    | S fuel' =>
        match Initialize_segment entropy_reduction num_items max_segment key i h_in with
        | Ok (i', key', h) =>
            Initialize_loop fuel' entropy_reduction num_items max_segment key' i' h
        | Undefined f => Some (Undefined f)
        end
    end
  else Some (Ok h_in).

(** [Initialize(entropy_reduction, h_in, num_items, max_segment)]: the array
    afterwards and what was printed.  Every segment takes at least one item,
    so [num_items] segments are enough fuel. *)
Definition Initialize (entropy_reduction : Z) (h_in : list T) (num_items max_segment : Z)
    : option (exec (list T * list (Printed T))) :=
  match Initialize_loop (Z.to_nat num_items) entropy_reduction num_items max_segment
          0 0 h_in with
  | Some (Ok h) =>
      Some (Ok (h, if g_verbose
                   then [PrintedText ("Input:" +:+ newline); DisplayedResults h num_items;
                         PrintedText (newline +:+ newline)]
                   else []))
  | Some (Undefined f) => Some (Undefined f)
  | None => None
  end.

(** Segments of the given lengths, holding the values of consecutive keys
    from [key] on. *)
Fixpoint segments (key : Z) (lens : list nat) : list T :=
  match lens with
  | [] => []
  | len :: lens' => replicate len (InitValue key) ++ segments (key + 1) lens'
  end.
End Initialize.

(** ** [TestPointer], up to the reference solution *)

Section TestPointer.
Context {KeyT ValueT : Type}.

(** [InitValue] at the key type and at the value type, [RandomBits] with the
    scaling, and [cub::Equality] at the key type: none is among the sources. *)
Variable InitValueK : Z -> KeyT.
Variable InitValueV : Z -> ValueT.
Variable scaled_random : Z -> Z -> Z -> Z.
Variable g_verbose : bool.
Variable equality_op : KeyT -> KeyT -> bool.

(** [for (int i = 0; i < num_items; ++i) InitValue(INTEGER_SEED, h_values_in[i], 1)],
    [trips] iterations from [i]. *)
Fixpoint TestPointer_values (trips : nat) (i : Z) (h_values_in : list ValueT)
    : exec (list ValueT) :=
  match trips with
  | O => Ok h_values_in
  | S trips' =>
      h ← store values_in h_values_in i (InitValueV 1);
      i' ← int_incr i;
      TestPointer_values trips' i' h
  end.

(** The host side of [TestPointer] from the allocation of the host arrays to
    the call of [Solve] (lines 476 to 489).  The four arrays are given as
    [new] returned them, [num_items] items of unspecified contents each; the
    result is the input keys and values, the number of segments and the two
    reference arrays. *)
Definition TestPointer_reference (num_items entropy_reduction max_segment : Z)
    (reduction_op : ValueT -> ValueT -> ValueT)
    (h_keys_in h_keys_reference : list KeyT) (h_values_in h_values_reference : list ValueT)
    : option (exec (list KeyT * list ValueT * Z * list KeyT * list ValueT)) :=
  match TestPointer_values (Z.to_nat num_items) 0 h_values_in with
  | Undefined f => Some (Undefined f)
  | Ok h_values_in =>
      match Initialize InitValueK scaled_random g_verbose entropy_reduction
              h_keys_in num_items max_segment with
      | None => None
      | Some (Undefined f) => Some (Undefined f)
      | Some (Ok (h_keys_in, _)) =>
          match Solve equality_op reduction_op h_keys_in h_values_in
                  h_keys_reference h_values_reference num_items with
          | Undefined f => Some (Undefined f)
          | Ok (num_segments, h_keys_reference, h_values_reference) =>
              Some (Ok (h_keys_in, h_values_in, num_segments,
                        h_keys_reference, h_values_reference))
          end
      end
  end.
End TestPointer.

(** ** Integer value types *)

(** The value of a signed integer type of [bits] bits that an integer is
    converted to: the one congruent to it modulo [2 ^ bits]. *)
Definition wrap (bits z : Z) : Z :=
  (z + 2 ^ (bits - 1)) mod 2 ^ bits - 2 ^ (bits - 1).

(** Modelled from the spec: [cub::Sum] of [cub/thread/thread_operators.cuh],
    which is missing from the sources, at a signed integer type of [bits]
    bits: [a + b], the sum being converted to the type of the operands.  For
    [char] and [short] the sum is computed in [int] and the conversion is
    what makes it wrap; for [int] and wider types every sum taken below is
    in range. *)
Definition Sum_at (bits : Z) (a b : Z) : Z := wrap bits (a + b).

(** ** The test drivers

    [TestOp], [TestSize], [TestDispatch] and the two overloads of [Test] that
    choose the problems do nothing but call one another and, in the end,
    [TestPointer].  They are modelled by the calls of [TestPointer] they
    make, in order, when every call returns. *)

(** [enum Backend]. *)
Inductive Backend := CUB | CDP.

(** The reduction operators [TestOp] passes: [cub::Sum()] and [cub::Max()]. *)
Inductive ReductionOp := OpSum | OpMax.

(** A call [TestPointer<BACKEND, KeyT, ValueT>(num_items, entropy_reduction,
    max_segment, reduction_op)]. *)
Record TestPointerCall := mkTestPointerCall {
  call_backend : Backend;
  call_num_items : Z;
  call_entropy_reduction : Z;
  call_max_segment : Z;
  call_reduction_op : ReductionOp
}.

(** [Test<BACKEND, KeyT, ValueT>(num_items, reduction_op, max_segment)]: the
    generation modes. *)
Definition Test_gen_modes (backend : Backend) (num_items : Z) (reduction_op : ReductionOp)
    (max_segment : Z) : list TestPointerCall :=
  mkTestPointerCall backend num_items 0 max_segment reduction_op
  :: (if decide (max_segment > 1)
      then [mkTestPointerCall backend num_items 2 max_segment reduction_op;
            mkTestPointerCall backend num_items 7 max_segment reduction_op]
      else []).

(** How a driver ends: it returns, it runs into undefined behaviour, or it
    is still running when the fuel of the model is used up. *)
Inductive Ending := Finished | Faulted (f : Fault) | StillRunning.

(** The loop of [Test<BACKEND, KeyT, ValueT>(num_items, reduction_op)],
    [for (max_segment = 3; max_segment < CUB_MIN(num_items, (unsigned short) -1);
    max_segment *= 11)]: the calls made and how the loop ends. *)
Fixpoint Test_max_segment_loop (fuel : nat) (backend : Backend) (num_items : Z)
    (reduction_op : ReductionOp) (max_segment : Z) : list TestPointerCall * Ending :=
  if decide (max_segment < Z.min num_items 65535) then
    match fuel with
    | O => ([], StillRunning)
    | S fuel' =>
        let calls := Test_gen_modes backend num_items reduction_op max_segment in
        match int_mul max_segment 11 with
        | Ok max_segment' =>
            let '(calls', ending) :=
              Test_max_segment_loop fuel' backend num_items reduction_op max_segment' in
            (calls ++ calls', ending)
        | Undefined f => (calls, Faulted f)
        end
    end
  else ([], Finished).

(** [Test<BACKEND, KeyT, ValueT>(num_items, reduction_op)]: one segment, then
    segments of one item, then the loop over the maximal segment lengths.
    The loop is given six rounds, one more than it can take: [3 * 11^5]
    exceeds 65535. *)
Definition Test_segment_lengths (backend : Backend) (num_items : Z)
    (reduction_op : ReductionOp) : list TestPointerCall * Ending :=
  let '(calls, ending) := Test_max_segment_loop 6 backend num_items reduction_op 3 in
  (Test_gen_modes backend num_items reduction_op (-1)
     ++ Test_gen_modes backend num_items reduction_op 1 ++ calls, ending).

(** [TestDispatch]: the backend the macro [TEST_CDP] selects, none when it
    is neither 0 nor 1. *)
Definition TestDispatch (TEST_CDP : Z) (num_items : Z) (reduction_op : ReductionOp)
    : list TestPointerCall * Ending :=
  if decide (TEST_CDP = 0) then Test_segment_lengths CUB num_items reduction_op
  else if decide (TEST_CDP = 1) then Test_segment_lengths CDP num_items reduction_op
  else ([], Finished).

(** One driver after another: the second runs when the first has returned. *)
Definition and_then (first : list TestPointerCall * Ending)
    (second : list TestPointerCall * Ending) : list TestPointerCall * Ending :=
  match first.2 with
  | Finished => (first.1 ++ second.1, second.2)
  | _ => first
  end.

(** [TestSize]: the four default sizes when [num_items] is negative. *)
Definition TestSize (TEST_CDP : Z) (num_items : Z) (reduction_op : ReductionOp)
    : list TestPointerCall * Ending :=
  if decide (num_items < 0) then
    and_then (TestDispatch TEST_CDP 1 reduction_op)
      (and_then (TestDispatch TEST_CDP 100 reduction_op)
         (and_then (TestDispatch TEST_CDP 10000 reduction_op)
            (TestDispatch TEST_CDP 1000000 reduction_op)))
  else TestDispatch TEST_CDP num_items reduction_op.

(** [TestOp]: the sum, then the maximum. *)
Definition TestOp (TEST_CDP : Z) (num_items : Z) : list TestPointerCall * Ending :=
  and_then (TestSize TEST_CDP num_items OpSum) (TestSize TEST_CDP num_items OpMax).

(** What a call of [TestPointer] made for [num_items] items may look like. *)
Definition planned_call (num_items : Z) (c : TestPointerCall) : Prop :=
  call_num_items c = num_items /\
  (call_max_segment c = -1 \/ call_max_segment c = 1 \/
   (3 <= call_max_segment c < 65535 /\ call_max_segment c < num_items)) /\
  (call_entropy_reduction c = 0 \/
   (1 < call_max_segment c /\
    (call_entropy_reduction c = 2 \/ call_entropy_reduction c = 7))).

(** * Properties of the sequential reference *)

(** ** Checked accesses *)

Lemma load_Ok {A} name (a : list A) (n : nat) x :
  a !! n = Some x -> load name a (Z.of_nat n) = Ok x.
Proof.
  intros H. unfold load. rewrite decide_True by lia. by rewrite Nat2Z.id, H.
Qed.

Lemma load_head {A} name (x : A) (a : list A) : load name (x :: a) 0 = Ok x.
Proof. reflexivity. Qed.

Lemma load_empty {A} name (i : Z) : load name (@nil A) i = Undefined (OutOfBounds name i).
Proof. unfold load. case_decide; [by rewrite lookup_nil | done]. Qed.

(** Writing the next free slot of an array whose first [length w] slots hold
    [w] and whose other slots still hold what [a0] held. *)
Lemma store_next {A} name (w a0 : list A) x :
  (length w < length a0)%nat ->
  store name (w ++ drop (length w) a0) (Z.of_nat (length w)) x
  = Ok ((w ++ [x]) ++ drop (length (w ++ [x])) a0).
Proof.
  intros Hlt. unfold store.
  rewrite decide_True by (rewrite length_app, length_drop; lia).
  f_equal. rewrite Nat2Z.id.
  destruct (lookup_lt_is_Some_2 a0 (length w) Hlt) as [y Hy].
  rewrite (drop_S _ _ _ Hy).
  rewrite insert_app_r_alt by lia. rewrite Nat.sub_diag. simpl.
  rewrite length_app. simpl. rewrite <- app_assoc. simpl.
  by rewrite Nat.add_1_r.
Qed.

Lemma int_incr_Ok (x : Z) : x + 1 <= INT_MAX -> int_incr x = Ok (x + 1).
Proof. intros H. unfold int_incr. by rewrite decide_True. Qed.

(** ** The loop of [Solve] is [Solve_scan] *)

Section SolveLoop.
Context {KeyT ValueT : Type}.
Variable equality_op : KeyT -> KeyT -> bool.
Variable reduction_op : ValueT -> ValueT -> ValueT.

Lemma Solve_scan_length rest : forall prev agg,
  (length (Solve_scan equality_op reduction_op prev agg rest).1 <= length rest)%nat.
Proof.
  induction rest as [|[k v] rest IH]; intros prev agg; simpl; [lia|].
  destruct (negb (equality_op prev k)).
  - specialize (IH k v). destruct (Solve_scan _ _ k v rest) as [out open]. simpl in *. lia.
  - specialize (IH k (reduction_op agg v)). lia.
Qed.

Lemma Solve_loop_scan (keys : list KeyT) (values : list ValueT) kr0 vr0 rest :
  forall (j : nat) prev agg w,
    drop j (zip keys values) = rest ->
    (length w + length rest < length kr0)%nat ->
    length vr0 = length kr0 ->
    Z.of_nat (length kr0) <= INT_MAX ->
    Z.of_nat (j + length rest) <= INT_MAX ->
    Solve_loop equality_op reduction_op keys values (length rest) (Z.of_nat j)
      (state_after kr0 vr0 w (prev, agg))
    = Ok (state_after kr0 vr0
            (w ++ (Solve_scan equality_op reduction_op prev agg rest).1)
            (Solve_scan equality_op reduction_op prev agg rest).2).
Proof.
  induction rest as [|[k v] rest IH]; intros j prev agg w Hdrop Hlen Hvr Hmax Hj.
  - simpl. by rewrite app_nil_r.
  - assert (Hj0 : zip keys values !! j = Some (k, v)).
    { rewrite <- (Nat.add_0_r j), <- lookup_drop, Hdrop. done. }
    assert (Hrest : drop (S j) (zip keys values) = rest).
    { change (S j) with (1 + j)%nat. rewrite Nat.add_comm.
      rewrite <- drop_drop, Hdrop. done. }
    apply lookup_zip_with_Some in Hj0 as (k' & v' & Heq & Hk & Hv).
    injection Heq as <- <-.
    simpl in Hlen, Hj.
    cbn [Solve_loop length]. unfold Solve_body.
    rewrite (load_Ok _ _ _ _ Hk). cbn [mbind exec_bind].
    cbn [state_after previous aggregate num_segments h_keys_reference h_values_reference fst snd].
    cbn [Solve_scan].
    destruct (negb (equality_op prev k)) eqn:Hne.
    + rewrite <- (length_fmap fst w) at 2. rewrite <- (length_fmap fst w) at 1.
      rewrite store_next by (rewrite length_fmap; lia).
      cbn [mbind exec_bind].
      rewrite <- (length_fmap snd w) at 2. rewrite <- (length_fmap snd w) at 1.
      rewrite store_next by (rewrite length_fmap; lia).
      cbn [mbind exec_bind].
      rewrite int_incr_Ok by lia. cbn [mbind exec_bind].
      rewrite (load_Ok _ _ _ _ Hv). cbn [mbind exec_bind mret exec_ret].
      cbn [previous aggregate num_segments h_keys_reference h_values_reference].
      rewrite int_incr_Ok by lia. cbn [mbind exec_bind].
      replace (Z.of_nat j + 1) with (Z.of_nat (S j)) by lia.
      specialize (IH (S j) k v (w ++ [(prev, agg)]) Hrest).
      unfold state_after in IH. cbn [fst snd] in IH.
      rewrite !fmap_app in IH. simpl in IH.
      rewrite !length_app in IH. simpl in IH.
      rewrite !length_app, !length_fmap. simpl.
      replace (Z.of_nat (length w) + 1) with (Z.of_nat (length w + 1)) by lia.
      rewrite IH by (try done; lia).
      destruct (Solve_scan equality_op reduction_op k v rest) as [out open] eqn:Hs.
      unfold state_after. cbn [fst snd].
      rewrite !fmap_app, !length_app. simpl.
      rewrite <- !app_assoc. simpl.
      replace (length w + 1 + length out)%nat with (length w + S (length out))%nat by lia.
      done.
    + rewrite (load_Ok _ _ _ _ Hv). cbn [mbind exec_bind mret exec_ret].
      cbn [previous aggregate num_segments h_keys_reference h_values_reference].
      rewrite int_incr_Ok by lia. cbn [mbind exec_bind].
      replace (Z.of_nat j + 1) with (Z.of_nat (S j)) by lia.
      specialize (IH (S j) k (reduction_op agg v) w Hrest).
      unfold state_after in IH. cbn [fst snd] in IH.
      rewrite IH by (try done; lia). done.
Qed.

(** [Solve] on arrays of [num_items] items: it emits [Solve_pairs] into the
    first slots of the reference arrays, leaves the other slots as they
    were and returns the number of pairs. *)
Lemma Solve_pairs_spec (keys : list KeyT) (values : list ValueT) kr0 vr0 :
  length values = length keys ->
  (1 <= length keys)%nat ->
  Z.of_nat (length keys) <= INT_MAX ->
  length kr0 = length keys ->
  length vr0 = length keys ->
  let ps := Solve_pairs equality_op reduction_op (zip keys values) in
  Solve equality_op reduction_op keys values kr0 vr0 (Z.of_nat (length keys))
  = Ok (Z.of_nat (length ps), ps.*1 ++ drop (length ps) kr0, ps.*2 ++ drop (length ps) vr0).
Proof.
  intros Hv Hn Hmax Hkr Hvr ps.
  destruct keys as [|k0 keys']; [simpl in Hn; lia|].
  destruct values as [|v0 values']; [simpl in Hv; lia|].
  subst ps. cbn [zip_with Solve_pairs].
  unfold Solve.
  rewrite !load_head. cbn [mbind exec_bind].
  set (rest := zip keys' values').
  assert (Hrl : length rest = length keys').
  { subst rest. rewrite length_zip_with. simpl in Hv. lia. }
  replace (Z.to_nat (Z.of_nat (length (k0 :: keys')) - 1)) with (length rest)
    by (simpl; lia).
  pose proof (Solve_loop_scan (k0 :: keys') (v0 :: values') kr0 vr0 rest 1 k0 v0 []) as HL.
  unfold state_after at 1 in HL. simpl in HL. rewrite !drop_0 in HL.
  change (Z.of_nat 1) with 1 in HL. change (Z.of_nat 0) with 0 in HL.
  rewrite HL; clear HL; try (simpl in *; lia); [|done].
  pose proof (Solve_scan_length rest k0 v0) as Hout.
  destruct (Solve_scan equality_op reduction_op k0 v0 rest) as [out [ko vo]].
  simpl in Hout. cbn [mbind exec_bind state_after fst snd previous aggregate
    num_segments h_keys_reference h_values_reference].
  rewrite <- (length_fmap fst out) at 2. rewrite <- (length_fmap fst out) at 1.
  rewrite store_next by (rewrite length_fmap; simpl in *; lia).
  cbn [mbind exec_bind].
  rewrite <- (length_fmap snd out) at 2. rewrite <- (length_fmap snd out) at 1.
  rewrite store_next by (rewrite length_fmap; simpl in *; lia).
  cbn [mbind exec_bind].
  rewrite int_incr_Ok by (simpl in *; lia).
  cbn [mbind exec_bind mret exec_ret].
  rewrite !fmap_app, !length_app, !length_fmap. simpl.
  do 3 f_equal. lia.
Qed.

(** ** [Solve_pairs] summarises the maximal runs *)

Lemma run_partition_cons_inv x rest (r : run KeyT ValueT) rs :
  run_partition equality_op (x :: rest) (r :: rs) ->
  r.1 = x /\
  match r.2 with
  | [] => rest = concat (run_items <$> rs) /\
          match rs with
          | [] => rest = []
          | r2 :: _ => equality_op x.1 r2.1.1 = false /\ run_partition equality_op rest rs
          end
  | y :: t => exists rest', rest = y :: rest' /\ equality_op x.1 y.1 = true /\
              run_partition equality_op (y :: rest') ((y, t) :: rs)
  end.
Proof.
  destruct r as [h t]. intros (Hc & Hr & Hs). simpl in *.
  injection Hc as -> Hc. split; [done|].
  apply andb_prop in Hr as [Hr1 Hr2]. unfold is_run in Hr1. simpl in Hr1.
  destruct t as [|y t].
  - simpl in Hc. split; [done|]. destruct rs as [|r2 rs].
    + done.
    + apply andb_prop in Hs as [Hs1 Hs2]. unfold run_key, run_last in Hs1. simpl in Hs1.
      split; [by apply negb_true_iff|]. repeat split; done.
  - simpl in Hc, Hr1. apply andb_prop in Hr1 as [He Hl].
    exists (t ++ concat (run_items <$> rs)). split; [done|]. split; [done|].
    repeat split.
    + simpl. apply andb_true_intro. done.
    + destruct rs as [|r2 rs]; [done|].
      apply andb_prop in Hs as [Hs1 Hs2]. apply andb_true_intro. split; [|done].
      unfold run_key, run_last in *. simpl in *.
      rewrite last_cons in Hs1. destruct (last t); done.
Qed.

Lemma run_last_cons x y (t : list (KeyT * ValueT)) :
  run_last (x, y :: t) = run_last (y, t).
Proof. unfold run_last. simpl. rewrite last_cons. by destruct (last t). Qed.

Lemma Solve_scan_runs rest : forall prev vp agg (r : run KeyT ValueT) rs,
  run_partition equality_op ((prev, vp) :: rest) (r :: rs) ->
  (Solve_scan equality_op reduction_op prev agg rest).1
    ++ [(Solve_scan equality_op reduction_op prev agg rest).2]
  = (run_key r, foldl reduction_op agg (r.2.*2)) :: (run_summary reduction_op <$> rs).
Proof.
  induction rest as [|[k v] rest IH]; intros prev vp agg [h t] rs HP;
    apply run_partition_cons_inv in HP as [Hh HP]; simpl in Hh, HP; subst h.
  - destruct t as [|y t].
    + destruct HP as [_ HP]. destruct rs as [|r2 rs]; [done|].
      destruct HP as [_ (Hc & _)]. destruct r2; done.
    + destruct HP as (rest' & ? & _); done.
  - cbn [Solve_scan]. destruct t as [|y t].
    + destruct HP as [_ HP]. destruct rs as [|r2 rs]; [done|].
      destruct HP as [Hne HP].
      pose proof (run_partition_cons_inv _ _ _ _ HP) as [Hr2 _].
      destruct r2 as [h2 t2]. simpl in Hr2, Hne. subst h2. simpl in Hne.
      rewrite Hne. simpl.
      specialize (IH k v v _ _ HP).
      destruct (Solve_scan equality_op reduction_op k v rest) as [out open].
      simpl in *. by rewrite IH.
    + destruct HP as (rest' & Hrest & He & HP). injection Hrest as <- <-.
      simpl in He. rewrite He. simpl.
      rewrite (IH k v (reduction_op agg v) _ _ HP). simpl.
      unfold run_key. by rewrite run_last_cons.
Qed.

Lemma Solve_pairs_runs items (rs : list (run KeyT ValueT)) :
  run_partition equality_op items rs ->
  Solve_pairs equality_op reduction_op items = run_summary reduction_op <$> rs.
Proof.
  intros HP. destruct items as [|[k0 v0] rest].
  - destruct HP as (Hc & _). destruct rs as [|[? ?] ?]; done.
  - destruct rs as [|r rs]; [by destruct HP|].
    pose proof (run_partition_cons_inv _ _ _ _ HP) as [Hr _].
    pose proof (Solve_scan_runs rest k0 v0 v0 r rs HP) as HS.
    unfold Solve_pairs.
    destruct (Solve_scan equality_op reduction_op k0 v0 rest) as [out open].
    simpl in HS. rewrite HS. simpl. f_equal.
    destruct r as [h t]. simpl in Hr. subst h. done.
Qed.

(** ** The maximal runs exist and are unique *)

Lemma runs_of_head l : forall x : KeyT * ValueT,
  exists t rs, runs_of equality_op x l = (x, t) :: rs.
Proof.
  induction l as [|y l IH]; intros x; simpl; [by eexists _, _|].
  destruct (IH y) as (t & rs & ->).
  destruct (equality_op x.1 y.1); by eexists _, _.
Qed.

Lemma runs_of_partition l : forall x : KeyT * ValueT,
  run_partition equality_op (x :: l) (runs_of equality_op x l).
Proof.
  induction l as [|y l IH]; intros x; [done|].
  specialize (IH y). simpl.
  destruct (runs_of_head l y) as (t & rs & Hy). rewrite Hy in IH |- *.
  destruct IH as (Hc & Hr & Hs). simpl in Hc, Hr.
  apply andb_prop in Hr as [Hr1 Hr2]. unfold is_run in Hr1. simpl in Hr1.
  destruct (equality_op x.1 y.1) eqn:He; repeat split; simpl.
  - by rewrite Hc.
  - apply andb_true_intro. split; [|done]. unfold is_run. simpl. by rewrite He, Hr1.
  - destruct rs as [|r2 rs]; [done|]. simpl in Hs.
    unfold run_key in *. unfold run_items. simpl. by rewrite run_last_cons.
  - by rewrite Hc.
  - unfold is_run at 1. simpl. by rewrite Hr1, Hr2.
  - unfold run_key at 1, run_last. simpl. rewrite He. simpl. done.
Qed.

Lemma runs_partition (items : list (KeyT * ValueT)) :
  run_partition equality_op items (runs equality_op items).
Proof. destruct items as [|x l]; [done|]. apply runs_of_partition. Qed.

Lemma run_partition_unique l : forall (x : KeyT * ValueT) rs,
  run_partition equality_op (x :: l) rs -> rs = runs_of equality_op x l.
Proof.
  induction l as [|y l IH]; intros x rs HP.
  - destruct rs as [|[h t] rs]; [by destruct HP|].
    apply run_partition_cons_inv in HP as [Hh HP]. simpl in Hh, HP. subst h.
    destruct t as [|z t].
    + destruct HP as [_ HP]. destruct rs as [|r2 rs]; [done|].
      destruct HP as [_ (Hc & _)]. destruct r2; done.
    + destruct HP as (rest' & ? & _); done.
  - destruct rs as [|[h t] rs]; [by destruct HP|].
    apply run_partition_cons_inv in HP as [Hh HP]. simpl in Hh, HP. subst h.
    simpl. destruct t as [|z t].
    + destruct HP as [_ HP]. destruct rs as [|r2 rs]; [done|].
      destruct HP as [Hne HP].
      pose proof (run_partition_cons_inv _ _ _ _ HP) as [Hr2 _].
      rewrite <- (IH y _ HP). destruct r2 as [h2 t2]. simpl in Hr2, Hne. subst h2.
      by rewrite Hne.
    + destruct HP as (rest' & Hrest & He & HP). injection Hrest as <- <-.
      rewrite <- (IH y _ HP). by rewrite He.
Qed.
End SolveLoop.

(** ** Degenerate inputs *)

Section Degenerate.
Context {KeyT ValueT : Type}.
Variable equality_op : KeyT -> KeyT -> bool.
Variable reduction_op : ValueT -> ValueT -> ValueT.

(** When all keys compare equal the loop closes no pair. *)
Lemma Solve_scan_single_run rest : forall prev agg,
  (forall a b, a ∈ prev :: rest.*1 -> b ∈ prev :: rest.*1 -> equality_op a b = true) ->
  Solve_scan equality_op reduction_op prev agg rest
  = ([], (default prev (last (rest.*1)), foldl reduction_op agg (rest.*2))).
Proof.
  induction rest as [|[k v] rest IH]; intros prev agg Hall; [done|].
  cbn [Solve_scan]. rewrite Hall by (simpl; repeat constructor). simpl.
  rewrite IH.
  - rewrite last_cons. change (list_fmap _ _ fst rest) with (rest.*1).
    by destruct (last (rest.*1)).
  - intros a b Ha Hb. apply Hall; simpl; by constructor.
Qed.

(** When no key compares equal to the one before it, every item is a pair
    of its own. *)
Lemma Solve_scan_all_runs rest : forall prev agg,
  (forall i a b, (prev :: rest.*1) !! i = Some a -> (prev :: rest.*1) !! S i = Some b ->
                 equality_op a b = false) ->
  (Solve_scan equality_op reduction_op prev agg rest).1
    ++ [(Solve_scan equality_op reduction_op prev agg rest).2]
  = (prev, agg) :: rest.
Proof.
  induction rest as [|[k v] rest IH]; intros prev agg Hadj; [done|].
  cbn [Solve_scan]. rewrite (Hadj 0%nat prev k) by done. simpl.
  specialize (IH k v (fun i a b Ha Hb => Hadj (S i) a b Ha Hb)).
  destruct (Solve_scan equality_op reduction_op k v rest) as [out open].
  simpl in *. by rewrite IH.
Qed.

(** With [num_items <= 1] the loop is not entered: [Solve] reads the items
    at index 0, writes slot 0 of the reference arrays and returns 1. *)
Lemma Solve_no_trip (keys : list KeyT) (values : list ValueT) kr0 vr0 num_items :
  num_items <= 1 ->
  Solve equality_op reduction_op keys values kr0 vr0 num_items
  = (k0 ← load keys_in keys 0;
     v0 ← load values_in values 0;
     kr ← store keys_reference kr0 0 k0;
     vr ← store values_reference vr0 0 v0;
     mret (1, kr, vr)).
Proof.
  intros Hn. unfold Solve.
  replace (Z.to_nat (num_items - 1)) with 0%nat by lia. simpl.
  destruct (load keys_in keys 0); [|done]. simpl.
  destruct (load values_in values 0); [|done]. simpl.
  destruct (store keys_reference kr0 0 a); [|done]. simpl.
  destruct (store values_reference vr0 0 a0); done.
Qed.

(** All keys comparing equal: one pair, under the last key, holding the fold
    of all the values. *)
Lemma Solve_single_run k0 (keys' : list KeyT) v0 (values' : list ValueT) kr0 vr0 :
  length values' = length keys' ->
  Z.of_nat (S (length keys')) <= INT_MAX ->
  length kr0 = S (length keys') -> length vr0 = S (length keys') ->
  (forall a b, a ∈ k0 :: keys' -> b ∈ k0 :: keys' -> equality_op a b = true) ->
  Solve equality_op reduction_op (k0 :: keys') (v0 :: values') kr0 vr0
    (Z.of_nat (S (length keys')))
  = Ok (1, default k0 (last keys') :: drop 1 kr0,
           foldl reduction_op v0 values' :: drop 1 vr0).
Proof.
  intros Hv Hmax Hkr Hvr Hall.
  pose proof (Solve_pairs_spec equality_op reduction_op (k0 :: keys') (v0 :: values')
                kr0 vr0) as HS.
  cbv zeta in HS. simpl length in HS. rewrite HS by (try done; simpl; lia). clear HS.
  cbn [zip_with Solve_pairs].
  rewrite Solve_scan_single_run.
  - rewrite fst_zip, snd_zip by lia. done.
  - rewrite fst_zip by lia. done.
Qed.
End Degenerate.

(** * The reference against the specification *)

(** C1.  For keys and values of the same length (at least one item, and as
    many as an [int] counts), any equality operator and any reduction
    operator, [Solve] on arrays of that length succeeds; it emits exactly one
    pair per maximal run of adjacent keys comparing equal, and the i-th value
    is the left fold of the reduction operator over the values of the i-th
    run, in input order.  The runs are the unique partition of the input into
    contiguous pieces that are linked inside and separated from one another:
    equal keys further apart are not grouped. *)
Theorem Solve_emits_maximal_runs {KeyT ValueT : Type}
    (equality_op : KeyT -> KeyT -> bool) (reduction_op : ValueT -> ValueT -> ValueT)
    (keys : list KeyT) (values : list ValueT) (kr0 : list KeyT) (vr0 : list ValueT) :
  length values = length keys ->
  (1 <= length keys)%nat ->
  Z.of_nat (length keys) <= INT_MAX ->
  length kr0 = length keys ->
  length vr0 = length keys ->
  exists rs : list (run KeyT ValueT),
    run_partition equality_op (zip keys values) rs /\
    (forall rs', run_partition equality_op (zip keys values) rs' -> rs' = rs) /\
    Solve equality_op reduction_op keys values kr0 vr0 (Z.of_nat (length keys))
    = Ok (Z.of_nat (length rs),
          (run_key <$> rs) ++ drop (length rs) kr0,
          (run_value reduction_op <$> rs) ++ drop (length rs) vr0).
Proof.
  intros Hv Hn Hmax Hkr Hvr.
  exists (runs equality_op (zip keys values)).
  pose proof (runs_partition equality_op (zip keys values)) as HP.
  split; [exact HP|]. split.
  - intros rs' HP'. destruct (zip keys values) as [|x l] eqn:Hz.
    + destruct HP' as (Hc & _). destruct rs' as [|[? ?] ?]; done.
    + by apply run_partition_unique.
  - rewrite Solve_pairs_spec by done. cbv zeta.
    rewrite (Solve_pairs_runs equality_op reduction_op _ _ HP).
    rewrite length_fmap, <- !list_fmap_compose. done.
Qed.

Lemma Solve_emits_maximal_runs_witness :
  exists rs : list (run Z Z),
    run_partition Equality (zip [1; 1; 2; 1] [10; 20; 30; 40]) rs /\
    (forall rs', run_partition Equality (zip [1; 1; 2; 1] [10; 20; 30; 40]) rs' -> rs' = rs) /\
    Solve Equality Sum [1; 1; 2; 1] [10; 20; 30; 40] [0; 0; 0; 0] [0; 0; 0; 0] 4
    = Ok (Z.of_nat (length rs),
          (run_key <$> rs) ++ drop (length rs) [0; 0; 0; 0],
          (run_value Sum <$> rs) ++ drop (length rs) [0; 0; 0; 0]).
Proof.
  apply (Solve_emits_maximal_runs Equality Sum [1; 1; 2; 1] [10; 20; 30; 40]
           [0; 0; 0; 0] [0; 0; 0; 0]);
    first [reflexivity | simpl; lia | unfold INT_MAX; simpl; lia].
Defined.

(** Equal keys that are not adjacent stay in separate runs. *)
Example Solve_runs_are_contiguous :
  Solve Equality Sum [1; 2; 1] [10; 20; 30] [0; 0; 0] [0; 0; 0] 3
  = Ok (3, [1; 2; 1], [10; 20; 30]).
Proof. reflexivity. Qed.

(** C4.  Keys [1,1,2,2,2,3] and values [10,20,30,40,50,60] under [==] and
    sum: [Solve] returns 3 and leaves keys [1,2,3] and values [30,120,60] in
    the first three slots of the reference arrays, whatever these held. *)
Theorem Solve_concrete_scenario (kr0 vr0 : list Z) :
  length kr0 = 6%nat ->
  length vr0 = 6%nat ->
  Solve Equality Sum [1; 1; 2; 2; 2; 3] [10; 20; 30; 40; 50; 60] kr0 vr0 6
  = Ok (3, [1; 2; 3] ++ drop 3 kr0, [30; 120; 60] ++ drop 3 vr0).
Proof.
  intros Hkr Hvr.
  exact (Solve_pairs_spec Equality Sum [1; 1; 2; 2; 2; 3] [10; 20; 30; 40; 50; 60]
           kr0 vr0 eq_refl ltac:(simpl; lia) ltac:(unfold INT_MAX; simpl; lia) Hkr Hvr).
Qed.

Lemma Solve_concrete_scenario_witness :
  Solve Equality Sum [1; 1; 2; 2; 2; 3] [10; 20; 30; 40; 50; 60]
    [7; 7; 7; 7; 7; 7] [9; 9; 9; 9; 9; 9] 6
  = Ok (3, [1; 2; 3; 7; 7; 7], [30; 120; 60; 9; 9; 9]).
Proof.
  apply (Solve_concrete_scenario [7; 7; 7; 7; 7; 7] [9; 9; 9; 9; 9; 9]); reflexivity.
Defined.

(** C10.  With [1 <= num_items] (an [int]) and arrays of [num_items] items,
    [Solve] runs without an access out of bounds and without overflow, keeps
    the length of the reference arrays, and returns a count between 1 and
    [num_items].  The bound [1 <= num_items] is needed: on empty input
    arrays the first statement already reads index 0 out of bounds, whatever
    [num_items] is. *)
Theorem Solve_accesses_in_bounds {KeyT ValueT : Type}
    (equality_op : KeyT -> KeyT -> bool) (reduction_op : ValueT -> ValueT -> ValueT) :
  (forall (keys : list KeyT) (values : list ValueT) kr0 vr0 (num_items : Z),
     1 <= num_items <= INT_MAX ->
     Z.of_nat (length keys) = num_items ->
     Z.of_nat (length values) = num_items ->
     Z.of_nat (length kr0) = num_items ->
     Z.of_nat (length vr0) = num_items ->
     exists n kr vr,
       Solve equality_op reduction_op keys values kr0 vr0 num_items = Ok (n, kr, vr) /\
       1 <= n <= num_items /\
       length kr = length kr0 /\ length vr = length vr0) /\
  (forall kr0 vr0 (num_items : Z),
     Solve equality_op reduction_op [] [] kr0 vr0 num_items
     = Undefined (OutOfBounds keys_in 0)).
Proof.
  split.
  - intros keys values kr0 vr0 num_items Hn Hk Hv Hkr Hvr. subst num_items.
    pose proof (Solve_pairs_spec equality_op reduction_op keys values kr0 vr0) as HS.
    cbv zeta in HS. rewrite HS by lia. clear HS.
    set (ps := Solve_pairs equality_op reduction_op (zip keys values)).
    assert (Hps : (1 <= length ps <= length keys)%nat).
    { subst ps. destruct keys as [|k0 keys']; [simpl in Hn; lia|].
      destruct values as [|v0 values']; [simpl in Hv; lia|].
      cbn [zip_with Solve_pairs].
      pose proof (Solve_scan_length equality_op reduction_op (zip keys' values') k0 v0) as HL.
      destruct (Solve_scan equality_op reduction_op k0 v0 (zip keys' values')) as [out open].
      rewrite length_zip_with in HL. rewrite length_app. simpl in *. lia. }
    eexists _, _, _. split; [done|]. split; [lia|].
    rewrite !length_app, !length_fmap, !length_drop. lia.
  - intros kr0 vr0 num_items. reflexivity.
Qed.

Lemma Solve_accesses_in_bounds_witness :
  exists n kr vr,
    Solve Equality Sum [4; 4; 5] [1; 2; 3] [0; 0; 0] [0; 0; 0] 3 = Ok (n, kr, vr) /\
    1 <= n <= 3 /\
    length kr = length [0; 0; 0] /\ length vr = length [0; 0; 0].
Proof.
  apply (proj1 (Solve_accesses_in_bounds Equality Sum) [4; 4; 5] [1; 2; 3] [0; 0; 0] [0; 0; 0] 3);
    first [reflexivity | unfold INT_MAX; lia].
Defined.

(** * The error-reporting layer *)

(** C8.  [Debug] returns the status it was given, whatever the status, the
    source position, the place it runs, the state of the runtime, and
    whether [CUB_STDERR] is defined. *)
Theorem Debug_returns_status {KeyT ValueT : Type}
    (cudaGetErrorString : cudaError_t -> string) (CUB_STDERR : bool) (target : Target)
    (error : cudaError_t) (filename : string) (line : Z) (w : World KeyT ValueT) :
  (Debug cudaGetErrorString CUB_STDERR target error filename line w).1 = error.
Proof. reflexivity. Qed.

(** C9.  Given a status that is not success, [Debug] first reads and resets
    the error flag of the runtime: the flag is [cudaSuccess] afterwards, the
    first thing [Debug] does is the [cudaGetLastError] that took the stale
    value, and whatever it prints comes after that. *)
Theorem Debug_clears_error_flag_first {KeyT ValueT : Type}
    (cudaGetErrorString : cudaError_t -> string) (CUB_STDERR : bool) (target : Target)
    (error : cudaError_t) (filename : string) (line : Z) (w : World KeyT ValueT) :
  error <> cudaSuccess ->
  let w' := (Debug cudaGetErrorString CUB_STDERR target error filename line w).2 in
  last_error w' = cudaSuccess /\
  memory w' = memory w /\
  exists printed,
    trace w' = trace w ++ GetLastError (last_error w) :: printed /\
    forallb is_console_output printed = true /\
    (CUB_STDERR = true -> printed <> []).
Proof.
  intros Herr. unfold Debug. simpl.
  destruct CUB_STDERR.
  - rewrite decide_True by done.
    destruct target as [|b t]; simpl; (split; [done|]); (split; [done|]).
    + eexists [_; _]. rewrite <- !app_assoc. simpl. done.
    + eexists [_]. rewrite <- !app_assoc. simpl. done.
  - simpl. split; [done|]. split; [done|]. exists []. done.
Qed.

Lemma Debug_clears_error_flag_first_witness :
  let w := mkWorld 700 [] (cleared_memory 0) in
  let w' := (Debug (fun _ => "unspecified launch failure"%string) true NV_IS_HOST
               2 "test.cu" 236 w).2 in
  last_error w' = cudaSuccess /\
  memory w' = memory w /\
  exists printed,
    trace w' = trace w ++ GetLastError (last_error w) :: printed /\
    forallb is_console_output printed = true /\
    (true = true -> printed <> []).
Proof.
  apply (Debug_clears_error_flag_first (fun _ => "unspecified launch failure"%string)
           true NV_IS_HOST 2 "test.cu" 236 (mkWorld 700 [] (cleared_memory 0))).
  unfold cudaSuccess. lia.
Defined.

(** * Degenerate inputs of the reference *)

(** C3.  With one item [Solve] emits one run, the input pair, and with at
    least one item and all keys comparing equal it emits one run spanning
    the whole input: the last key and the fold of all the values.  With
    [num_items = 0] it does not do what the claim says: it has no empty case
    and reads the first item before it looks at [num_items], so whenever it
    returns it has written slot 0 of both reference arrays and returns 1,
    never 0; and on the empty arrays of an empty problem, which is what
    [TestPointer] hands it for [--n=0], the read at index 0 is out of
    bounds. *)
Theorem Solve_degenerate_cases {KeyT ValueT : Type}
    (equality_op : KeyT -> KeyT -> bool) (reduction_op : ValueT -> ValueT -> ValueT) :
  (forall k v kr0 vr0,
     length kr0 = 1%nat -> length vr0 = 1%nat ->
     Solve equality_op reduction_op [k] [v] kr0 vr0 1 = Ok (1, [k], [v])) /\
  (forall k0 keys' v0 values' kr0 vr0,
     length values' = length keys' ->
     Z.of_nat (S (length keys')) <= INT_MAX ->
     length kr0 = S (length keys') -> length vr0 = S (length keys') ->
     (forall a b, a ∈ k0 :: keys' -> b ∈ k0 :: keys' -> equality_op a b = true) ->
     Solve equality_op reduction_op (k0 :: keys') (v0 :: values') kr0 vr0
       (Z.of_nat (S (length keys')))
     = Ok (1, default k0 (last keys') :: drop 1 kr0,
              foldl reduction_op v0 values' :: drop 1 vr0)) /\
  (forall keys values kr0 vr0 n kr vr,
     Solve equality_op reduction_op keys values kr0 vr0 0 = Ok (n, kr, vr) ->
     n = 1 /\ kr !! 0%nat = keys !! 0%nat /\ vr !! 0%nat = values !! 0%nat /\
     keys <> [] /\ kr0 <> []) /\
  Solve equality_op reduction_op [] [] [] [] 0 = Undefined (OutOfBounds keys_in 0).
Proof.
  split; [|split; [|split]].
  - intros k v kr0 vr0 Hkr Hvr.
    destruct kr0 as [|a [|]]; try done. destruct vr0 as [|b [|]]; done.
  - intros k0 keys' v0 values' kr0 vr0 Hv Hmax Hkr Hvr Hall.
    by apply Solve_single_run.
  - intros keys values kr0 vr0 n kr vr HS.
    rewrite Solve_no_trip in HS by lia.
    destruct keys as [|k keys]; [done|]. destruct values as [|v values]; [done|].
    rewrite !load_head in HS. simpl in HS.
    destruct kr0 as [|a kr0]; [done|]. destruct vr0 as [|b vr0]; [done|].
    unfold store in HS. simpl in HS.
    injection HS as <- <- <-. done.
  - reflexivity.
Qed.

Lemma Solve_degenerate_cases_witness :
  Solve Equality Sum [5] [7] [0] [0] 1 = Ok (1, [5], [7]) /\
  Solve Equality Sum [4; 4; 4] [1; 2; 3] [0; 0; 0] [0; 0; 0] 3 = Ok (1, [4; 0; 0], [6; 0; 0]) /\
  (forall n kr vr, Solve Equality Sum [5] [7] [0] [0] 0 = Ok (n, kr, vr) -> n = 1).
Proof.
  destruct (Solve_degenerate_cases Equality Sum) as (H1 & Hall & H0 & _).
  split; [|split].
  - apply (H1 5 7 [0] [0]); reflexivity.
  - apply (Hall 4 [4; 4] 1 [2; 3] [0; 0; 0] [0; 0; 0]);
      first [reflexivity | unfold INT_MAX; simpl; lia | idtac].
    intros a b Ha Hb. apply list_elem_of_In in Ha, Hb. simpl in Ha, Hb.
    unfold Equality. apply Z.eqb_eq. lia.
  - intros n kr vr H. exact (proj1 (H0 [5] [7] [0] [0] n kr vr H)).
Defined.

(** * The entry points *)

Section DispatchFacts.
Context {KeyT ValueT : Type}.
Variable ReduceByKey : @ReduceByKeyT KeyT ValueT.

Lemma Dispatch_CUB_loop_stream_blind trips :
  stream_blind ReduceByKey ->
  forall error d_temp_storage temp_storage_bytes d_keys_in d_values_in reduction_op
         num_items stream debug_synchronous w,
    Dispatch_CUB_loop ReduceByKey trips error d_temp_storage temp_storage_bytes
      d_keys_in d_values_in reduction_op num_items stream debug_synchronous w
    = Dispatch_CUB_loop ReduceByKey trips error d_temp_storage temp_storage_bytes
        d_keys_in d_values_in reduction_op num_items 0 debug_synchronous w.
Proof.
  intros Hblind. induction trips as [|trips IH]; intros; [done|].
  simpl. rewrite Hblind.
  destruct (ReduceByKey _ _ _ _ _ _ 0 _ _) as [[e b] w']. apply IH.
Qed.

(** [CubDebugExit] leaves the process exactly when the status is a failure. *)
Lemma CubDebugExit_success {A} cudaGetErrorString filename line
    (k : World KeyT ValueT -> result A * World KeyT ValueT) w :
  CubDebugExit cudaGetErrorString cudaSuccess filename line k w
  = k (cudaGetLastError w).2.
Proof. reflexivity. Qed.

Lemma CubDebugExit_failure {A} cudaGetErrorString e filename line
    (k : World KeyT ValueT -> result A * World KeyT ValueT) w :
  e <> cudaSuccess ->
  exists w', CubDebugExit cudaGetErrorString e filename line k w = (Exited 1, w').
Proof.
  intros He. unfold CubDebugExit, Debug. cbn [snd].
  rewrite !decide_True by done. by eexists.
Qed.
End DispatchFacts.

(** C2, as stated, fails for the entry point: [Dispatch] drops the equality
    operator it is given, so whatever the device routine is, it cannot on
    keys [1,2] report one run under the relation that holds of all keys and
    two runs under the relation that holds of none. *)
Lemma Dispatch_CUB_equality_op_counterexample :
  ~ (exists (ReduceByKey : @ReduceByKeyT Z Z) (w : World Z Z),
       d_num_runs (memory (Dispatch_CUB ReduceByKey 1 (Some 0) 64 [1; 2] [10; 20]
                             (fun _ _ => true) Sum 2 0 true w).2) = 1 /\
       d_num_runs (memory (Dispatch_CUB ReduceByKey 1 (Some 0) 64 [1; 2] [10; 20]
                             (fun _ _ => false) Sum 2 0 true w).2) = 2).
Proof.
  intros (R & w & H1 & H2). unfold Dispatch_CUB in H1, H2.
  rewrite H1 in H2. discriminate H2.
Qed.

(** C2, amended.  The reference [Solve] decides run membership by the
    equality operator it is given, whatever relation that is and whatever
    the order of the keys: what it emits are the maximal runs of adjacent
    keys comparing equal under that operator.  In particular, under the
    relation that holds of all keys it emits one run spanning the input, and
    when no key compares equal to the key before it, it emits one run per
    item, the input itself.  The entry point [Dispatch] takes an equality
    operator and does not pass it on: its outcome is the same for every
    operator. *)
Theorem equality_op_decides_runs_in_Solve {KeyT ValueT : Type}
    (reduction_op : ValueT -> ValueT -> ValueT) :
  (forall (equality_op : KeyT -> KeyT -> bool) keys values kr0 vr0,
     length values = length keys ->
     (1 <= length keys)%nat ->
     Z.of_nat (length keys) <= INT_MAX ->
     length kr0 = length keys -> length vr0 = length keys ->
     run_partition equality_op (zip keys values) (runs equality_op (zip keys values)) /\
     Solve equality_op reduction_op keys values kr0 vr0 (Z.of_nat (length keys))
     = Ok (Z.of_nat (length (runs equality_op (zip keys values))),
           (run_key <$> runs equality_op (zip keys values))
             ++ drop (length (runs equality_op (zip keys values))) kr0,
           (run_value reduction_op <$> runs equality_op (zip keys values))
             ++ drop (length (runs equality_op (zip keys values))) vr0)) /\
  (forall k0 keys' v0 values' kr0 vr0,
     length values' = length keys' ->
     Z.of_nat (S (length keys')) <= INT_MAX ->
     length kr0 = S (length keys') -> length vr0 = S (length keys') ->
     Solve (fun _ _ : KeyT => true) reduction_op (k0 :: keys') (v0 :: values') kr0 vr0
       (Z.of_nat (S (length keys')))
     = Ok (1, default k0 (last keys') :: drop 1 kr0,
              foldl reduction_op v0 values' :: drop 1 vr0)) /\
  (forall (equality_op : KeyT -> KeyT -> bool) keys values kr0 vr0,
     length values = length keys ->
     (1 <= length keys)%nat ->
     Z.of_nat (length keys) <= INT_MAX ->
     length kr0 = length keys -> length vr0 = length keys ->
     (forall i a b, keys !! i = Some a -> keys !! S i = Some b -> equality_op a b = false) ->
     Solve equality_op reduction_op keys values kr0 vr0 (Z.of_nat (length keys))
     = Ok (Z.of_nat (length keys), keys, values)) /\
  (forall (ReduceByKey : @ReduceByKeyT KeyT ValueT) (equality_op equality_op' : KeyT -> KeyT -> bool)
          timing_timing_iterations d_temp_storage temp_storage_bytes d_keys_in d_values_in
          num_items stream debug_synchronous w,
     Dispatch_CUB ReduceByKey timing_timing_iterations d_temp_storage temp_storage_bytes
       d_keys_in d_values_in equality_op reduction_op num_items stream debug_synchronous w
     = Dispatch_CUB ReduceByKey timing_timing_iterations d_temp_storage temp_storage_bytes
         d_keys_in d_values_in equality_op' reduction_op num_items stream debug_synchronous w).
Proof.
  split; [|split; [|split]].
  - intros equality_op keys values kr0 vr0 Hv Hn Hmax Hkr Hvr.
    pose proof (runs_partition equality_op (zip keys values)) as HP.
    split; [exact HP|].
    rewrite Solve_pairs_spec by done. cbv zeta.
    rewrite (Solve_pairs_runs equality_op reduction_op _ _ HP).
    rewrite length_fmap, <- !list_fmap_compose. done.
  - intros k0 keys' v0 values' kr0 vr0 Hv Hmax Hkr Hvr.
    by apply Solve_single_run.
  - intros equality_op keys values kr0 vr0 Hv Hn Hmax Hkr Hvr Hadj.
    rewrite Solve_pairs_spec by done. cbv zeta.
    destruct keys as [|k0 keys']; [simpl in Hn; lia|].
    destruct values as [|v0 values']; [done|].
    cbn [zip_with Solve_pairs].
    pose proof (Solve_scan_all_runs equality_op reduction_op (zip keys' values') k0 v0) as HS.
    simpl in Hv. rewrite fst_zip in HS by lia. specialize (HS Hadj).
    destruct (Solve_scan equality_op reduction_op k0 v0 (zip keys' values')) as [out open].
    simpl in HS. rewrite HS. simpl.
    rewrite fst_zip, snd_zip by lia.
    rewrite length_zip_with.
    rewrite !drop_ge by (simpl in *; lia). rewrite !app_nil_r.
    do 3 f_equal. lia.
  - reflexivity.
Qed.

Lemma equality_op_decides_runs_in_Solve_witness :
  Solve Equality Sum [1; 1; 2; 1] [10; 20; 30; 40] [0; 0; 0; 0] [0; 0; 0; 0] 4
  = Ok (3, [1; 2; 1; 0], [30; 30; 40; 0]) /\
  Solve (fun _ _ => true) Sum [1; 2; 3] [10; 20; 30] [0; 0; 0] [0; 0; 0] 3
  = Ok (1, [3; 0; 0], [60; 0; 0]) /\
  Solve (fun _ _ => false) Sum [1; 1; 1] [10; 20; 30] [0; 0; 0] [0; 0; 0] 3
  = Ok (3, [1; 1; 1], [10; 20; 30]).
Proof.
  destruct (@equality_op_decides_runs_in_Solve Z Z Sum) as (Hruns & Hone & Hall & _).
  split; [|split].
  - apply (Hruns Equality [1; 1; 2; 1] [10; 20; 30; 40] [0; 0; 0; 0] [0; 0; 0; 0]);
      first [reflexivity | simpl; lia | unfold INT_MAX; simpl; lia].
  - apply (Hone 1 [2; 3] 10 [20; 30] [0; 0; 0] [0; 0; 0]);
      first [reflexivity | unfold INT_MAX; simpl; lia].
  - apply (Hall (fun _ _ => false) [1; 1; 1] [10; 20; 30] [0; 0; 0] [0; 0; 0]);
      first [reflexivity | simpl; lia | unfold INT_MAX; simpl; lia].
Defined.

(** C5, as stated, fails: the kernel does not pass the stream of the caller
    on.  For a routine that can only be given the default stream, the bridge
    called on stream 5 returns success, where the direct entry point called
    with the same arguments returns the failure 400. *)
Lemma Dispatch_CDP_stream_counterexample :
  (Dispatch_CDP default_stream_ReduceByKey (fun _ _ _ _ => cudaSuccess)
     (fun _ _ => cudaSuccess) (fun _ => "error"%string)
     1 (Some 0) 20 [1; 1; 2] [10; 20; 30] Equality Sum 3 5 true (example_world 3)).1
  = Returned (cudaSuccess, 20) /\
  (Dispatch_CUB default_stream_ReduceByKey
     1 (Some 0) 20 [1; 1; 2] [10; 20; 30] Equality Sum 3 5 true (example_world 3)).1
  = (400, 20).
Proof. split; reflexivity. Qed.

(** C5, amended.  The nested-dispatch path launches [CDPDispatchKernel] on
    one block of one thread; the kernel calls the direct entry point with
    the arguments it was given, except that it passes the default stream 0
    whatever the stream of the caller is.  Whenever the bridge returns, the
    status and the byte count it hands back are those the direct call
    produces for these arguments on stream 0, and they are what the kernel
    left in the two cells; it returns whenever the launch and the two copies
    succeed (it leaves the process otherwise).  The direct call on stream 0
    is the direct call with the same arguments when the stream of the caller
    is 0, or when the outcome of the routine does not depend on the
    stream. *)
Theorem Dispatch_CDP_matches_Dispatch_CUB {KeyT ValueT : Type}
    (ReduceByKey : @ReduceByKeyT KeyT ValueT)
    (launch_status : Z -> Z -> Z -> Z -> cudaError_t)
    (cudaMemcpy_status : DeviceCell -> DeviceMemory KeyT ValueT -> cudaError_t)
    (cudaGetErrorString : cudaError_t -> string)
    (timing_timing_iterations : Z) (d_temp_storage : option Z) (temp_storage_bytes : Z)
    (d_keys_in : list KeyT) (d_values_in : list ValueT)
    (equality_op : KeyT -> KeyT -> bool) (reduction_op : ValueT -> ValueT -> ValueT)
    (num_items stream : Z) (debug_synchronous : bool) (w : World KeyT ValueT) :
  let direct s :=
    Dispatch_CUB ReduceByKey timing_timing_iterations d_temp_storage temp_storage_bytes
      d_keys_in d_values_in equality_op reduction_op num_items s debug_synchronous w in
  let bridge :=
    Dispatch_CDP ReduceByKey launch_status cudaMemcpy_status cudaGetErrorString
      timing_timing_iterations d_temp_storage temp_storage_bytes
      d_keys_in d_values_in equality_op reduction_op num_items stream debug_synchronous w in
  let kernel :=
    CDPDispatchKernel ReduceByKey timing_timing_iterations d_temp_storage temp_storage_bytes
      d_keys_in d_values_in equality_op reduction_op num_items debug_synchronous w in
  (forall r w', bridge = (Returned r, w') ->
     r = (direct 0).1 /\
     d_cdp_error (memory w') = r.1 /\ d_temp_storage_bytes (memory w') = r.2 /\
     d_keys_out (memory w') = d_keys_out (memory (direct 0).2) /\
     d_values_out (memory w') = d_values_out (memory (direct 0).2) /\
     d_num_runs (memory w') = d_num_runs (memory (direct 0).2)) /\
  (launch_status 1 1 0 stream = cudaSuccess ->
   cudaMemcpy_status cell_temp_storage_bytes (memory kernel) = cudaSuccess ->
   cudaMemcpy_status cell_cdp_error (memory kernel) = cudaSuccess ->
   exists w', bridge = (Returned (direct 0).1, w')) /\
  (stream = 0 \/ stream_blind ReduceByKey -> direct 0 = direct stream).
Proof.
  intros direct bridge kernel.
  assert (Hrun : memory kernel
                 = set_d_temp_storage_bytes (direct 0).1.2
                     (set_d_cdp_error (direct 0).1.1 (memory (direct 0).2))).
  { subst kernel direct. unfold CDPDispatchKernel. cbv beta.
    destruct (Dispatch_CUB _ _ _ _ _ _ _ _ _ 0 _ _) as [[e b] w0]. done. }
  split; [|split].
  - intros r w'. subst bridge. unfold Dispatch_CDP, triple_chevron_doit.
    destruct (decide (launch_status 1 1 0 stream = cudaSuccess)) as [Hl|Hl].
    + fold kernel. rewrite CubDebugExit_success.
      unfold cudaMemcpy_to_host. cbn [cudaGetLastError snd memory].
      destruct (decide (cudaMemcpy_status cell_temp_storage_bytes (memory kernel)
                        = cudaSuccess)) as [Hc|Hc].
      * rewrite CubDebugExit_success. cbn [cudaGetLastError snd memory].
        destruct (decide (cudaMemcpy_status cell_cdp_error (memory kernel)
                          = cudaSuccess)) as [Hc'|Hc'].
        -- rewrite CubDebugExit_success. cbn [cudaGetLastError snd memory read_cell].
           intros [= <- <-]. cbn [memory fst snd]. rewrite Hrun.
           destruct (direct 0) as [[e b] w0]. done.
        -- match goal with
           | |- context [CubDebugExit ?g ?e ?f ?l ?k ?w0] =>
               destruct (CubDebugExit_failure g e f l k w0 Hc') as [wx Hx]; rewrite Hx
           end.
           done.
      * match goal with
        | |- context [CubDebugExit ?g ?e ?f ?l ?k ?w0] =>
            destruct (CubDebugExit_failure g e f l k w0 Hc) as [wx Hx]; rewrite Hx
        end.
        done.
    + match goal with
      | |- context [CubDebugExit ?g ?e ?f ?l ?k ?w0] =>
          destruct (CubDebugExit_failure g e f l k w0 Hl) as [wx Hx]; rewrite Hx
      end.
      done.
  - intros Hl Hcopy Hcopy'. subst bridge. unfold Dispatch_CDP, triple_chevron_doit.
    rewrite decide_True by done. fold kernel.
    rewrite CubDebugExit_success.
    unfold cudaMemcpy_to_host. cbn [cudaGetLastError snd memory].
    rewrite Hcopy. rewrite decide_True by done.
    rewrite CubDebugExit_success. cbn [cudaGetLastError snd memory].
    rewrite Hcopy'. rewrite decide_True by done.
    rewrite CubDebugExit_success. cbn [cudaGetLastError snd memory read_cell].
    rewrite Hrun. destruct (direct 0) as [[e b] w0]. by eexists.
  - intros [->|Hblind]; [done|]. subst direct. cbv beta. unfold Dispatch_CUB.
    symmetry. by apply Dispatch_CUB_loop_stream_blind.
Qed.

Lemma Dispatch_CDP_matches_Dispatch_CUB_witness :
  exists w',
    Dispatch_CDP example_ReduceByKey (fun _ _ _ _ => cudaSuccess) (fun _ _ => cudaSuccess)
      (fun _ => "error"%string)
      1 (Some 0) 20 [1; 1; 2] [10; 20; 30] Equality Sum 3 5 true (example_world 3)
    = (Returned
         (Dispatch_CUB example_ReduceByKey 1 (Some 0) 20 [1; 1; 2] [10; 20; 30]
            Equality Sum 3 5 true (example_world 3)).1, w').
Proof.
  destruct (Dispatch_CDP_matches_Dispatch_CUB example_ReduceByKey
              (fun _ _ _ _ => cudaSuccess) (fun _ _ => cudaSuccess) (fun _ => "error"%string)
              1 (Some 0) 20 [1; 1; 2] [10; 20; 30] Equality Sum 3 5 true (example_world 3))
    as (_ & Hreturns & Hsame).
  rewrite <- Hsame.
  - apply Hreturns; reflexivity.
  - right. intros ? ? ? ? ? ? ? ? ?. reflexivity.
Defined.

(** * The device-wide routine of the specification *)



Section PipelineFacts.
Context {KeyT ValueT : Type}.
Variable arch_version : Z.
Variable policy_table : list (Z * TuningPolicy).
Variable lowest_policy : TuningPolicy.
Variable types : ScratchTypes.
Variable target : Target.
Variable CUB_STDERR : bool.
Variable runtime_status :
  RuntimeCall -> cudaError_t -> DeviceMemory KeyT ValueT -> cudaError_t.
Variable cudaGetErrorString : cudaError_t -> string.
Variable call_site : RuntimeCall -> string * Z.
Variable tile_kernel :
  PipelineStage -> Z -> list Region -> list KeyT -> list ValueT ->
  (ValueT -> ValueT -> ValueT) -> Z -> DeviceMemory KeyT ValueT -> DeviceMemory KeyT ValueT.

Local Abbreviation model :=
  (ReduceByKey_model arch_version policy_table lowest_policy types target CUB_STDERR
     runtime_status cudaGetErrorString call_site tile_kernel).
Local Abbreviation pipeline :=
  (KernelPipeline target CUB_STDERR runtime_status cudaGetErrorString call_site tile_kernel).
Local Abbreviation stage :=
  (run_stage target CUB_STDERR runtime_status cudaGetErrorString call_site tile_kernel).
Local Abbreviation wrapped :=
  (wrapped_call target CUB_STDERR runtime_status cudaGetErrorString call_site).
Local Abbreviation required num_items :=
  (TemporaryStorageLayout (PolicySelector policy_table lowest_policy arch_version)
     types num_items).2.

(** A wrapped call returns what the runtime answered, clears the error flag,
    leaves the device memory alone and appends to the trace: the reading of
    the flag only, when the call succeeded. *)
Lemma wrapped_call_appends call le (m : DeviceMemory KeyT ValueT) :
  exists t,
    (forall tr, wrapped call (mkWorld le tr m)
                = (runtime_status call le m, mkWorld cudaSuccess (tr ++ t) m)) /\
    (runtime_status call le m = cudaSuccess -> t = [GetLastError le]).
Proof.
  unfold wrapped_call, Debug, cudaGetLastError, emit. cbn [last_error memory trace snd].
  set (status := runtime_status call le m).
  destruct (decide (status = cudaSuccess)) as [Hs|Hs].
  - exists [GetLastError le]. split; [|done]. intros tr.
    cbn [last_error memory trace snd]. rewrite Hs.
    destruct CUB_STDERR; [rewrite decide_False by (unfold cudaSuccess; lia)|]; done.
  - destruct CUB_STDERR.
    + destruct (decide (status <> 0)) as [_|Hn]; [|by destruct Hn].
      destruct target as [|b th].
      * eexists [_; _; _]. split; [|done]. intros tr.
        cbn [last_error memory trace snd]. by rewrite <- !app_assoc.
      * eexists [_; _]. split; [|done]. intros tr.
        cbn [last_error memory trace snd]. by rewrite <- !app_assoc.
    + exists [GetLastError status]. split; [|done]. intros tr. reflexivity.
Qed.

Lemma wrapped_call_status call (w : World KeyT ValueT) :
  (wrapped call w).1 = runtime_status call (last_error w) (memory w).
Proof. reflexivity. Qed.

Lemma wrapped_call_memory call (w : World KeyT ValueT) :
  memory (wrapped call w).2 = memory w.
Proof.
  destruct w as [le tr m].
  destruct (wrapped_call_appends call le m) as (t & Ht & _). by rewrite Ht.
Qed.

Lemma wrapped_call_last_error call (w : World KeyT ValueT) :
  last_error (wrapped call w).2 = cudaSuccess.
Proof.
  destruct w as [le tr m].
  destruct (wrapped_call_appends call le m) as (t & Ht & _). by rewrite Ht.
Qed.





(** On a runtime that accepts every call a stage succeeds, and what it
    leaves in the device memory is what its tiles wrote. *)
Lemma run_stage_accepted s policy regions d_keys_in d_values_in reduction_op num_items
    stream debug_synchronous (w : World KeyT ValueT) :
  (forall call flag m, runtime_status call flag m = cudaSuccess) ->
  (stage s policy regions d_keys_in d_values_in reduction_op num_items stream
     debug_synchronous w).1 = cudaSuccess /\
  memory (stage s policy regions d_keys_in d_values_in reduction_op num_items stream
            debug_synchronous w).2
  = run_tiles tile_kernel s (Z.to_nat (numTiles policy num_items)) 0 regions
      d_keys_in d_values_in reduction_op num_items (memory w).
Proof.
  intros Hl. destruct w as [le tr m]. unfold run_stage.
  set (call := Launch s (numTiles policy num_items) (block_threads policy) 0 stream).
  destruct (wrapped_call_appends call le m) as (t & Ht & _).
  rewrite Ht, Hl. rewrite decide_False by (unfold cudaSuccess; lia).
  cbn [last_error trace memory].
  destruct debug_synchronous; [|done].
  unfold emit. cbn [last_error trace memory].
  set (m' := run_tiles _ _ _ _ _ _ _ _ _ _).
  destruct (wrapped_call_appends (Synchronize s stream) cudaSuccess m') as (t' & Ht' & _).
  rewrite Ht', Hl. rewrite decide_False by (unfold cudaSuccess; lia). done.
Qed.

(** ** The debugging flag, when the synchronization points succeed *)

Section Synchronized.
Variable stream : Z.
Hypothesis synchronized :
  forall s flag m, runtime_status (Synchronize s stream) flag m = cudaSuccess.




End Synchronized.

(** ** Size queries *)

(** A size query is the device query and, when that succeeds, the byte count
    of the layout; when it fails, its status, with the byte count as it was. *)
Lemma ReduceByKey_model_size_query temp_storage_bytes d_keys_in d_values_in reduction_op
    num_items stream debug_synchronous w :
  model None temp_storage_bytes d_keys_in d_values_in reduction_op
    num_items stream debug_synchronous w
  = (((wrapped DeviceQuery w).1,
      if decide ((wrapped DeviceQuery w).1 = cudaSuccess)
      then required num_items else temp_storage_bytes),
     (wrapped DeviceQuery w).2).
Proof.
  unfold ReduceByKey_model.
  destruct (wrapped_call _ _ _ _ _ DeviceQuery w) as [e w'] eqn:Hq. cbn [fst snd].
  destruct (decide (e <> 0)) as [He|He].
  - by rewrite decide_False.
  - assert (e = cudaSuccess) as -> by (unfold cudaSuccess; lia).
    by rewrite decide_True.
Qed.

(** Through the timing loop: size queries leave the device memory alone, the
    byte count is what it was or that of the layout, and it is that of the
    layout after a query that succeeded. *)
Lemma Dispatch_CUB_loop_size_query trips :
  forall error temp_storage_bytes d_keys_in d_values_in reduction_op
         num_items stream debug_synchronous w,
    let r := Dispatch_CUB_loop model trips error None temp_storage_bytes
               d_keys_in d_values_in reduction_op num_items stream debug_synchronous w in
    memory r.2 = memory w /\
    (r.1.2 = temp_storage_bytes \/ r.1.2 = required num_items) /\
    ((trips <> 0%nat \/ temp_storage_bytes = required num_items) ->
     r.1.1 = cudaSuccess -> r.1.2 = required num_items).
Proof.
  induction trips as [|trips IH]; intros; subst r.
  - simpl. split; [done|]. split; [by left|]. intros [?|?]; done.
  - cbn [Dispatch_CUB_loop]. rewrite ReduceByKey_model_size_query.
    set (q := wrapped_call _ _ _ _ _ DeviceQuery w).
    specialize (IH q.1 (if decide (q.1 = cudaSuccess)
                        then required num_items else temp_storage_bytes)
                  d_keys_in d_values_in reduction_op num_items stream debug_synchronous q.2).
    cbv zeta in IH. destruct IH as (Hm & Hb & Hok).
    split; [|split].
    + rewrite Hm. apply wrapped_call_memory.
    + destruct Hb as [Hb|Hb]; [|by right]. rewrite Hb. case_decide; [by right|by left].
    + intros _ Hs. destruct (decide (q.1 = cudaSuccess)) as [Hq|Hq].
      * apply Hok; [by right|done].
      * destruct trips as [|trips]; [simpl in Hs; done|].
        apply Hok; [by left|done].
Qed.
End PipelineFacts.

(** ** The layout *)

Lemma align_up_ge (x a : Z) : 0 < a -> x <= align_up x a.
Proof.
  intros Ha. unfold align_up.
  pose proof (Z.div_mod (x + a - 1) a ltac:(lia)) as Hd.
  pose proof (Z.mod_pos_bound (x + a - 1) a Ha) as Hm. lia.
Qed.

Lemma align_up_aligned (x a : Z) : (a | align_up x a).
Proof. unfold align_up. apply Z.divide_factor_r. Qed.

(** Regions are placed in the order requested, at aligned offsets that do not
    go backwards, and the total covers the last of them. *)
Lemma place_regions_spec requests : forall next id,
  Forall (fun r => 0 <= r.1 /\ 0 < r.2) requests ->
  let placed := place_regions next id requests in
  next <= placed.2 /\
  Forall2 (fun r region =>
             byte_size region = r.1 /\ alignment region = r.2 /\
             (alignment region | region_offset region) /\
             next <= region_offset region /\
             region_offset region + byte_size region <= placed.2)
          requests placed.1.
Proof.
  induction requests as [|[size align] requests IH]; intros next id Hall; simpl.
  - split; [lia|constructor].
  - inversion Hall as [|? ? [Hs Ha] Hall']; subst. simpl in Hs, Ha.
    specialize (IH (align_up next align + size) (S id) Hall').
    destruct (place_regions (align_up next align + size) (S id) requests)
      as [regions total]. simpl in *. destruct IH as [Ht HF].
    pose proof (align_up_ge next align Ha).
    split; [lia|]. constructor.
    + simpl. repeat split; try done; try lia. apply align_up_aligned.
    + eapply Forall2_impl; [exact HF|]. simpl. intros r region (? & ? & ? & ? & ?).
      repeat split; try done; lia.
Qed.

(** With no item there is no tile, and the pipeline of the specification
    leaves the output arrays alone, reports zero runs and succeeds, when the
    runtime accepts its launches and synchronization points.  (The reference
    has no such case: it reads the first item whatever [num_items] is.) *)
Lemma KernelPipeline_zero_items {KeyT ValueT : Type} target CUB_STDERR
    (runtime_status : RuntimeCall -> cudaError_t -> DeviceMemory KeyT ValueT -> cudaError_t)
    cudaGetErrorString call_site
    (tile_kernel : PipelineStage -> Z -> list Region -> list KeyT -> list ValueT ->
                   (ValueT -> ValueT -> ValueT) -> Z ->
                   DeviceMemory KeyT ValueT -> DeviceMemory KeyT ValueT)
    policy regions temp_storage_bytes reduction_op stream debug_synchronous
    (w : World KeyT ValueT) :
  0 < tile_size policy ->
  (forall call flag m, runtime_status call flag m = cudaSuccess) ->
  let r := KernelPipeline target CUB_STDERR runtime_status cudaGetErrorString call_site
             tile_kernel policy regions temp_storage_bytes [] [] reduction_op 0 stream
             debug_synchronous w in
  r.1 = (cudaSuccess, temp_storage_bytes) /\
  memory r.2 = set_d_num_runs 0 (memory w).
Proof.
  intros Hts Hl r. subst r. unfold KernelPipeline, abandon_on_failure.
  assert (Ht : numTiles policy 0 = 0).
  { unfold numTiles. apply Z.div_small. lia. }
  destruct (run_stage_accepted target CUB_STDERR runtime_status cudaGetErrorString
              call_site tile_kernel StageA policy regions [] [] reduction_op 0 stream
              debug_synchronous w Hl) as [HA HAm].
  destruct (run_stage _ _ _ _ _ _ StageA _ _ _ _ _ _ _ _ w) as [eA wA].
  cbn [fst snd] in *. subst eA. rewrite decide_False by (unfold cudaSuccess; lia).
  destruct (run_stage_accepted target CUB_STDERR runtime_status cudaGetErrorString
              call_site tile_kernel StageB policy regions [] [] reduction_op 0 stream
              debug_synchronous wA Hl) as [HB HBm].
  destruct (run_stage _ _ _ _ _ _ StageB _ _ _ _ _ _ _ _ wA) as [eB wB].
  cbn [fst snd] in *. subst eB. rewrite decide_False by (unfold cudaSuccess; lia).
  rewrite decide_True by lia. cbn [fst snd memory].
  rewrite HBm, HAm, Ht. done.
Qed.

(** C6, as stated, fails: the size computation asks the device, and spec
    section 4.1 lets it fail.  On a runtime whose device query reports a
    pending error, a size query made while error 700 is pending returns 700
    and leaves the byte count at 0; the same query made again, with the same
    inputs, returns success and the byte count 20. *)
Lemma size_query_counterexample :
  let first :=
    Dispatch_CUB (example_model sticky_runtime) 1 None 0 [1; 1; 2] [10; 20; 30] Equality Sum
      3 0 true (mkWorld 700 [] (cleared_memory 3)) in
  let second :=
    Dispatch_CUB (example_model sticky_runtime) 1 None first.1.2 [1; 1; 2] [10; 20; 30]
      Equality Sum 3 0 true first.2 in
  first.1 = (700, 0) /\ second.1 = (cudaSuccess, 20) /\ first.1.2 <> second.1.2.
Proof. cbv zeta. split; [reflexivity|]. split; [reflexivity|]. vm_compute. discriminate. Qed.

(** C6, amended.  Two size queries (the entry point called with a null
    scratch pointer, each for at least one iteration) for the same
    architecture, policy table, scratch types and [num_items] that both
    succeed report the same byte count, that of the one layout, whatever
    the byte variables held, whatever the data, operators, stream, debug
    flag and state of the runtime of either call; an execute call whose
    device query succeeds runs the pipeline over the regions of that same
    layout.  A size query returns what the runtime answered to its device
    query; when that is a failure, it leaves the byte count as it was.  In
    either case it does no other work: the device memory is untouched. *)
Theorem size_query_reproducible {KeyT ValueT : Type}
    (arch_version : Z) (policy_table : list (Z * TuningPolicy)) (lowest_policy : TuningPolicy)
    (types : ScratchTypes) (target : Target) (CUB_STDERR : bool)
    (runtime_status : RuntimeCall -> cudaError_t -> DeviceMemory KeyT ValueT -> cudaError_t)
    (cudaGetErrorString : cudaError_t -> string)
    (call_site : RuntimeCall -> string * Z)
    (tile_kernel : PipelineStage -> Z -> list Region -> list KeyT -> list ValueT ->
                   (ValueT -> ValueT -> ValueT) -> Z ->
                   DeviceMemory KeyT ValueT -> DeviceMemory KeyT ValueT)
    (num_items : Z)
    (iterations iterations' : Z) (bytes0 bytes0' : Z)
    (keys keys' : list KeyT) (values values' : list ValueT)
    (equality_op equality_op' : KeyT -> KeyT -> bool)
    (reduction_op reduction_op' : ValueT -> ValueT -> ValueT)
    (stream stream' : Z) (debug debug' : bool) (w w' : World KeyT ValueT) :
  1 <= iterations -> 1 <= iterations' ->
  let ReduceByKey :=
    ReduceByKey_model arch_version policy_table lowest_policy types target CUB_STDERR
      runtime_status cudaGetErrorString call_site tile_kernel in
  let policy := PolicySelector policy_table lowest_policy arch_version in
  let layout := TemporaryStorageLayout policy types num_items in
  let first :=
    Dispatch_CUB ReduceByKey iterations None bytes0 keys values equality_op reduction_op
      num_items stream debug w in
  let second :=
    Dispatch_CUB ReduceByKey iterations' None bytes0' keys' values' equality_op' reduction_op'
      num_items stream' debug' w' in
  (first.1.1 = cudaSuccess -> second.1.1 = cudaSuccess ->
   first.1.2 = layout.2 /\ second.1.2 = layout.2) /\
  (forall bytes,
     let query := ReduceByKey None bytes keys values reduction_op num_items stream debug w in
     query.1.1 = runtime_status DeviceQuery (last_error w) (memory w) /\
     query.1.2 = (if decide (query.1.1 = cudaSuccess) then layout.2 else bytes)) /\
  memory first.2 = memory w /\ memory second.2 = memory w' /\
  (forall address bytes,
     runtime_status DeviceQuery (last_error w) (memory w) = cudaSuccess ->
     ReduceByKey (Some address) bytes keys values reduction_op num_items stream debug w
     = KernelPipeline target CUB_STDERR runtime_status cudaGetErrorString call_site tile_kernel
         policy layout.1 bytes keys values reduction_op num_items stream debug
         (wrapped_call target CUB_STDERR runtime_status cudaGetErrorString call_site
            DeviceQuery w).2).
Proof.
  intros H1 H2 ReduceByKey policy layout first second.
  assert (Hq : forall n b k v e o s d (w0 : World KeyT ValueT), 1 <= n ->
            let r := Dispatch_CUB ReduceByKey n None b k v e o num_items s d w0 in
            memory r.2 = memory w0 /\ (r.1.1 = cudaSuccess -> r.1.2 = layout.2)).
  { intros n b k v e o s d w0 Hn. unfold Dispatch_CUB.
    destruct (Dispatch_CUB_loop_size_query arch_version policy_table lowest_policy types
                target CUB_STDERR runtime_status cudaGetErrorString call_site tile_kernel
                (Z.to_nat n) cudaSuccess b k v o num_items s d w0) as (Hm & _ & Hok).
    split; [exact Hm|]. intros Hs. apply Hok; [left; lia | exact Hs]. }
  split; [|split; [|split; [|split]]].
  - intros Hs Hs'. split; [by apply Hq | by apply (Hq iterations')].
  - intros bytes query. subst query ReduceByKey.
    rewrite ReduceByKey_model_size_query. done.
  - by apply Hq.
  - by apply (Hq iterations').
  - intros address bytes Hok. subst ReduceByKey. unfold ReduceByKey_model.
    pose proof (wrapped_call_status target CUB_STDERR runtime_status cudaGetErrorString
                  call_site DeviceQuery w) as Hst.
    destruct (wrapped_call _ _ _ _ _ DeviceQuery w) as [e w0]. simpl in Hst.
    rewrite Hst, Hok. by rewrite decide_False by (unfold cudaSuccess; lia).
Qed.

Lemma size_query_reproducible_witness :
  let first :=
    Dispatch_CUB example_ReduceByKey 1 None 0 [1; 1; 2] [10; 20; 30] Equality Sum
      3 0 true (example_world 3) in
  let second :=
    Dispatch_CUB example_ReduceByKey 2 None 7 [7; 8; 9] [1; 1; 1] Equality Z.max
      3 5 false (mkWorld 700 [StreamSync] (cleared_memory 3)) in
  first.1 = (cudaSuccess, 20) /\ second.1 = (cudaSuccess, 20).
Proof.
  pose proof (size_query_reproducible 350 [(300, example_policy); (600, mkTuningPolicy 8 4 2 1 1)]
                example_policy example_types NV_IS_HOST true
                accepting_runtime (fun _ => "error"%string)
                (fun _ => ("dispatch_reduce_by_key.cuh"%string, 0))
                (sequential_tile_kernel example_policy)
                3 1 2 0 7 [1; 1; 2] [7; 8; 9] [10; 20; 30] [1; 1; 1] Equality Equality
                Sum Z.max 0 5 true false (example_world 3)
                (mkWorld 700 [StreamSync] (cleared_memory 3))
                ltac:(lia) ltac:(lia)) as (Hsame & _).
  destruct (Hsame eq_refl eq_refl) as [Hfirst Hsecond].
  split; apply injective_projections; first [reflexivity | exact Hfirst | exact Hsecond].
Defined.




(** A run of the example pipeline: the flag adds a synchronization point, the
    reading of the error flag around it and a log line after each stage, and
    the outputs are those of the reference. *)
Example debug_synchronous_example :
  let run debug_synchronous :=
    Dispatch_CUB example_ReduceByKey 1 (Some 0) 20 [1; 1; 2] [10; 20; 30] Equality Sum
      3 0 debug_synchronous (example_world 3) in
  trace (run false).2 = [GetLastError 0; GetLastError 0; GetLastError 0] /\
  trace (run true).2
  = [GetLastError 0;
     GetLastError 0; StreamSync; GetLastError 0; StdoutLog "tile-local scan with lookback";
     GetLastError 0; StreamSync; GetLastError 0; StdoutLog "materialization"] /\
  memory (run true).2 = mkDeviceMemory [1; 2; 0] [30; 30; 0] 2 0 0 [] /\
  memory (run false).2 = memory (run true).2.
Proof. repeat split. Qed.

(** * More on the sequential reference *)

Section SolveMore.
Context {KeyT ValueT : Type}.
Variable equality_op : KeyT -> KeyT -> bool.
Variable reduction_op : ValueT -> ValueT -> ValueT.

(** ** What [Solve] reads *)

Lemma load_agree {A} name (a1 a2 : list A) (i : nat) :
  a1 !! i = a2 !! i -> load name a1 (Z.of_nat i) = load name a2 (Z.of_nat i).
Proof. intros H. unfold load. by rewrite Nat2Z.id, H. Qed.

Lemma Solve_loop_agree (keys1 keys2 : list KeyT) (values1 values2 : list ValueT) trips :
  forall (i : nat) s,
    (forall x, (i <= x < i + trips)%nat ->
               keys1 !! x = keys2 !! x /\ values1 !! x = values2 !! x) ->
    Solve_loop equality_op reduction_op keys1 values1 trips (Z.of_nat i) s
    = Solve_loop equality_op reduction_op keys2 values2 trips (Z.of_nat i) s.
Proof.
  induction trips as [|trips IH]; intros i s Hag; [done|].
  cbn [Solve_loop]. unfold Solve_body.
  destruct (Hag i ltac:(lia)) as [Hk Hv].
  rewrite (load_agree keys_in _ _ _ Hk), (load_agree values_in _ _ _ Hv).
  destruct (load keys_in keys2 (Z.of_nat i)) as [k|f]; [|done].
  cbn [mbind exec_bind].
  match goal with
  | |- mbind _ (mbind _ ?m) = _ => destruct m as [s'|f]; [|done]
  end.
  cbn [mbind exec_bind mret exec_ret].
  unfold int_incr. case_decide; [|done]. cbn [mbind exec_bind].
  replace (Z.of_nat i + 1) with (Z.of_nat (S i)) by lia.
  apply IH. intros x Hx. apply Hag. lia.
Qed.

(** X1.  [Solve] reads the items at index 0 and at the indices below
    [num_items], and no other: its outcome, faults included, is its outcome
    on the input arrays cut after the first [max 1 num_items] items. *)
Theorem Solve_reads_only_its_items (keys : list KeyT) (values : list ValueT)
    (kr0 : list KeyT) (vr0 : list ValueT) (num_items : Z) :
  Solve equality_op reduction_op keys values kr0 vr0 num_items
  = Solve equality_op reduction_op
      (take (Z.to_nat (Z.max 1 num_items)) keys)
      (take (Z.to_nat (Z.max 1 num_items)) values) kr0 vr0 num_items.
Proof.
  set (n := Z.to_nat (Z.max 1 num_items)).
  assert (Hag : forall x, (x < n)%nat ->
            keys !! x = take n keys !! x /\ values !! x = take n values !! x).
  { intros x Hx. by rewrite !lookup_take_lt. }
  unfold Solve.
  pose proof (load_agree keys_in keys (take n keys) 0 (proj1 (Hag 0%nat ltac:(lia)))) as Hk.
  pose proof (load_agree values_in values (take n values) 0
                (proj2 (Hag 0%nat ltac:(lia)))) as Hv.
  change (Z.of_nat 0) with 0 in Hk, Hv. rewrite Hk, Hv.
  destruct (load keys_in (take n keys) 0) as [k0|f]; [|done].
  destruct (load values_in (take n values) 0) as [v0|f]; [|done].
  cbn [mbind exec_bind].
  pose proof (Solve_loop_agree keys (take n keys) values (take n values)
                (Z.to_nat (num_items - 1)) 1%nat) as HL.
  change (Z.of_nat 1) with 1 in HL. rewrite HL; [done|].
  intros x Hx. apply Hag. lia.
Qed.

(** ** How many segments *)

Lemma Solve_scan_boundaries rest : forall prev agg,
  length (Solve_scan equality_op reduction_op prev agg rest).1
  = boundaries equality_op prev (rest.*1).
Proof.
  induction rest as [|[k v] rest IH]; intros prev agg; [done|].
  cbn [Solve_scan fmap list_fmap boundaries fst].
  destruct (equality_op prev k); simpl.
  - apply IH.
  - specialize (IH k v). destruct (Solve_scan _ _ k v rest) as [out open].
    simpl in *. by rewrite IH.
Qed.

(** X2.  The number of segments [Solve] returns is one more than the number
    of items whose key does not compare equal to the key of the item before. *)
Theorem Solve_counts_boundaries k0 (keys' : list KeyT) v0 (values' : list ValueT) kr0 vr0 :
  length values' = length keys' ->
  Z.of_nat (S (length keys')) <= INT_MAX ->
  length kr0 = S (length keys') ->
  length vr0 = S (length keys') ->
  exists kr vr,
    Solve equality_op reduction_op (k0 :: keys') (v0 :: values') kr0 vr0
      (Z.of_nat (S (length keys')))
    = Ok (Z.of_nat (S (boundaries equality_op k0 keys')), kr, vr).
Proof.
  intros Hv Hmax Hkr Hvr.
  pose proof (Solve_pairs_spec equality_op reduction_op (k0 :: keys') (v0 :: values')
                kr0 vr0) as HS.
  cbv zeta in HS. simpl length in HS. rewrite HS by (try done; simpl; lia). clear HS.
  cbn [zip_with Solve_pairs].
  pose proof (Solve_scan_boundaries (zip keys' values') k0 v0) as HB.
  rewrite fst_zip in HB by lia.
  destruct (Solve_scan equality_op reduction_op k0 v0 (zip keys' values')) as [out open].
  simpl in HB. eexists _, _. rewrite length_app, HB. simpl.
  do 3 f_equal. lia.
Qed.

(** ** What the emitted values add up to *)

Lemma Solve_scan_total rest :
  (forall a b c, reduction_op (reduction_op a b) c = reduction_op a (reduction_op b c)) ->
  forall prev agg a,
    foldl reduction_op a
      ((Solve_scan equality_op reduction_op prev agg rest).1.*2
         ++ [(Solve_scan equality_op reduction_op prev agg rest).2.2])
    = foldl reduction_op (reduction_op a agg) (rest.*2).
Proof.
  intros Hassoc. induction rest as [|[k v] rest IH]; intros prev agg a; [done|].
  cbn [Solve_scan]. destruct (negb (equality_op prev k)).
  - specialize (IH k v (reduction_op a agg)).
    destruct (Solve_scan equality_op reduction_op k v rest) as [out open].
    simpl in *. exact IH.
  - rewrite IH. simpl. by rewrite Hassoc.
Qed.

(** X3.  For an associative reduction operator, reducing the values [Solve]
    emits, in order, gives what reducing all the input values gives: the
    first emitted value folded with the others equals the first input value
    folded with the others. *)
Theorem Solve_preserves_total k0 (keys' : list KeyT) v0 (values' : list ValueT) kr0 vr0 :
  (forall a b c, reduction_op (reduction_op a b) c = reduction_op a (reduction_op b c)) ->
  length values' = length keys' ->
  Z.of_nat (S (length keys')) <= INT_MAX ->
  length kr0 = S (length keys') ->
  length vr0 = S (length keys') ->
  exists n kr vr o outs,
    Solve equality_op reduction_op (k0 :: keys') (v0 :: values') kr0 vr0
      (Z.of_nat (S (length keys'))) = Ok (n, kr, vr) /\
    take (Z.to_nat n) vr = o :: outs /\
    foldl reduction_op o outs = foldl reduction_op v0 values'.
Proof.
  intros Hassoc Hv Hmax Hkr Hvr.
  pose proof (Solve_pairs_spec equality_op reduction_op (k0 :: keys') (v0 :: values')
                kr0 vr0) as HS.
  cbv zeta in HS. simpl length in HS. rewrite HS by (try done; simpl; lia). clear HS.
  cbn [zip_with Solve_pairs].
  set (rest := zip keys' values').
  assert (Htot : exists o outs,
            (Solve_scan equality_op reduction_op k0 v0 rest).1.*2
              ++ [(Solve_scan equality_op reduction_op k0 v0 rest).2.2] = o :: outs /\
            foldl reduction_op o outs = foldl reduction_op v0 (rest.*2)).
  { clearbody rest. revert k0 v0. clear -Hassoc.
    induction rest as [|[k v] rest IH]; intros k0 v0; [by eexists _, _|].
    cbn [Solve_scan]. destruct (negb (equality_op k0 k)).
    - pose proof (Solve_scan_total rest Hassoc k v v0) as HT.
      destruct (Solve_scan equality_op reduction_op k v rest) as [out open].
      simpl in *. eexists _, _. split; [done|]. exact HT.
    - destruct (IH k (reduction_op v0 v)) as (o & outs & Ho & Hf).
      exists o, outs. done. }
  destruct Htot as (o & outs & Ho & Hf).
  subst rest. rewrite snd_zip in Hf by lia.
  destruct (Solve_scan equality_op reduction_op k0 v0 (zip keys' values')) as [out open].
  simpl in Ho. eexists _, _, _, o, outs. split; [done|]. split; [|done].
  rewrite Nat2Z.id, fmap_app. simpl.
  rewrite take_app_length'; [done|].
  by rewrite !length_app, length_fmap.
Qed.
End SolveMore.

Lemma Solve_counts_boundaries_witness :
  exists kr vr,
    Solve Equality Sum [1; 1; 2; 1] [10; 20; 30; 40] [0; 0; 0; 0] [0; 0; 0; 0] 4
    = Ok (3, kr, vr).
Proof.
  apply (Solve_counts_boundaries Equality Sum 1 [1; 2; 1] 10 [20; 30; 40]
           [0; 0; 0; 0] [0; 0; 0; 0]);
    first [reflexivity | unfold INT_MAX; simpl; lia].
Defined.

Lemma Solve_preserves_total_witness :
  exists n kr vr o outs,
    Solve Equality Sum [1; 1; 2; 1] [10; 20; 30; 40] [0; 0; 0; 0] [0; 0; 0; 0] 4
    = Ok (n, kr, vr) /\
    take (Z.to_nat n) vr = o :: outs /\
    foldl Sum o outs = foldl Sum 10 [20; 30; 40].
Proof.
  apply (Solve_preserves_total Equality Sum 1 [1; 2; 1] 10 [20; 30; 40]
           [0; 0; 0; 0] [0; 0; 0; 0]);
    first [reflexivity | unfold INT_MAX; simpl; lia | idtac].
  intros a b c. unfold Sum. lia.
Defined.

(** ** [Solve] on its own output *)

Section SolveAgain.
Context {KeyT ValueT : Type}.
Variable equality_op : KeyT -> KeyT -> bool.
Hypothesis equality_sym : forall a b, equality_op a b = true -> equality_op b a = true.
Hypothesis equality_trans :
  forall a b c, equality_op a b = true -> equality_op b c = true -> equality_op a c = true.

(** Inside a run the first key compares equal to the last. *)
Lemma linked_last (l : list (KeyT * ValueT)) : forall x y,
  linked equality_op x l = true -> last l = Some y -> equality_op x y.1 = true.
Proof.
  induction l as [|z l IH]; intros x y Hl Hy; [done|].
  simpl in Hl. apply andb_prop in Hl as [Hxz Hl].
  destruct l as [|z' l].
  - injection Hy as <-. done.
  - apply (equality_trans _ z.1); [done|]. apply IH; [done|].
    by rewrite last_cons_cons in Hy.
Qed.

(** The keys two neighbouring runs are reported under do not compare equal. *)
Lemma run_keys_differ (rs : list (run KeyT ValueT)) :
  forallb (is_run equality_op) rs = true ->
  separated equality_op rs = true ->
  forall i a b,
    (run_key <$> rs) !! i = Some a -> (run_key <$> rs) !! S i = Some b ->
    equality_op a b = false.
Proof.
  induction rs as [|r1 rs IH]; intros Hr Hs i a b Ha Hb; [done|].
  simpl in Hr. apply andb_prop in Hr as [Hr1 Hr].
  destruct rs as [|r2 rs]; [done|].
  cbn [separated] in Hs. apply andb_prop in Hs as [Hs1 Hs].
  destruct i as [|i].
  - simpl in Ha, Hb. injection Ha as <-. injection Hb as <-.
    apply negb_true_iff in Hs1.
    simpl in Hr. apply andb_prop in Hr as [Hr2 _].
    unfold run_key at 2, run_last. destruct r2 as [h t]. simpl in *.
    destruct (last t) as [y|] eqn:Hy; simpl; [|done].
    destruct (equality_op (run_key r1) y.1) eqn:He; [|done].
    rewrite <- Hs1. symmetry.
    apply (equality_trans _ y.1); [done|].
    apply equality_sym. by apply (linked_last t).
  - apply (IH Hr Hs i); done.
Qed.
End SolveAgain.

Section SolveOnePerItem.
Context {KeyT ValueT : Type}.
Variable equality_op : KeyT -> KeyT -> bool.
Variable reduction_op : ValueT -> ValueT -> ValueT.

(** When no key compares equal to the key before it, [Solve] copies its
    input. *)
Lemma Solve_one_run_per_item (keys : list KeyT) (values : list ValueT) kr0 vr0 :
  length values = length keys ->
  (1 <= length keys)%nat ->
  Z.of_nat (length keys) <= INT_MAX ->
  length kr0 = length keys -> length vr0 = length keys ->
  (forall i a b, keys !! i = Some a -> keys !! S i = Some b -> equality_op a b = false) ->
  Solve equality_op reduction_op keys values kr0 vr0 (Z.of_nat (length keys))
  = Ok (Z.of_nat (length keys), keys, values).
Proof.
  intros Hv Hn Hmax Hkr Hvr Hadj.
  rewrite Solve_pairs_spec by done. cbv zeta.
  destruct keys as [|k0 keys']; [simpl in Hn; lia|].
  destruct values as [|v0 values']; [done|].
  cbn [zip_with Solve_pairs].
  pose proof (Solve_scan_all_runs equality_op reduction_op (zip keys' values') k0 v0) as HS.
  simpl in Hv. rewrite fst_zip in HS by lia. specialize (HS Hadj).
  destruct (Solve_scan equality_op reduction_op k0 v0 (zip keys' values')) as [out open].
  simpl in HS. rewrite HS. simpl.
  rewrite fst_zip, snd_zip by lia.
  rewrite length_zip_with.
  rewrite !drop_ge by (simpl in *; lia). rewrite !app_nil_r.
  do 3 f_equal. lia.
Qed.
End SolveOnePerItem.

(** X4.  For an equality operator that is symmetric and transitive, [Solve]
    is idempotent: no two neighbouring keys it emits compare equal, and run
    again on the keys and values it emitted, with any reduction operator, it
    emits them unchanged, one run per item. *)
Theorem Solve_idempotent {KeyT ValueT : Type}
    (equality_op : KeyT -> KeyT -> bool) (reduction_op : ValueT -> ValueT -> ValueT)
    (keys : list KeyT) (values : list ValueT) (kr0 : list KeyT) (vr0 : list ValueT) :
  (forall a b, equality_op a b = true -> equality_op b a = true) ->
  (forall a b c, equality_op a b = true -> equality_op b c = true ->
                 equality_op a c = true) ->
  length values = length keys ->
  (1 <= length keys)%nat ->
  Z.of_nat (length keys) <= INT_MAX ->
  length kr0 = length keys ->
  length vr0 = length keys ->
  exists (m : nat) ks vs,
    Solve equality_op reduction_op keys values kr0 vr0 (Z.of_nat (length keys))
    = Ok (Z.of_nat m, ks ++ drop m kr0, vs ++ drop m vr0) /\
    length ks = m /\ length vs = m /\
    (forall i a b, ks !! i = Some a -> ks !! S i = Some b -> equality_op a b = false) /\
    (forall (reduction_op' : ValueT -> ValueT -> ValueT) kr1 vr1,
       length kr1 = m -> length vr1 = m ->
       Solve equality_op reduction_op' ks vs kr1 vr1 (Z.of_nat m)
       = Ok (Z.of_nat m, ks, vs)).
Proof.
  intros Hsym Htrans Hv Hn Hmax Hkr Hvr.
  pose proof (runs_partition equality_op (zip keys values)) as HP.
  set (rs := runs equality_op (zip keys values)) in *.
  exists (length rs), (run_key <$> rs), (run_value reduction_op <$> rs).
  assert (Hm : (1 <= length rs <= length keys)%nat).
  { destruct HP as (Hc & _).
    assert (Hlen : forall l : list (run KeyT ValueT),
              (length l <= length (concat (run_items <$> l)))%nat).
    { induction l as [|[h t] l IH]; [simpl; lia|].
      rewrite fmap_cons. cbn [concat]. rewrite length_app.
      unfold run_items at 1. cbn [length fst snd]. lia. }
    specialize (Hlen rs). rewrite Hc, length_zip_with in Hlen.
    split; [|lia].
    destruct rs; [|simpl; lia].
    simpl in Hc. destruct keys; [simpl in Hn; lia|]. destruct values; done. }
  assert (Hdiff := run_keys_differ equality_op Hsym Htrans rs
                     (proj1 (proj2 HP)) (proj2 (proj2 HP))).
  split; [|split; [|split; [|split]]].
  - rewrite Solve_pairs_spec by done. cbv zeta.
    rewrite (Solve_pairs_runs equality_op reduction_op _ _ HP).
    rewrite length_fmap, <- !list_fmap_compose. done.
  - by rewrite length_fmap.
  - by rewrite length_fmap.
  - exact Hdiff.
  - intros reduction_op' kr1 vr1 Hkr1 Hvr1.
    pose proof (Solve_one_run_per_item equality_op reduction_op'
                  (run_key <$> rs) (run_value reduction_op <$> rs) kr1 vr1) as H1.
    rewrite !length_fmap in H1. apply H1; try done; lia.
Qed.

Lemma Solve_idempotent_witness :
  exists (m : nat) ks vs,
    Solve Equality Sum [1; 1; 2; 1] [10; 20; 30; 40] [0; 0; 0; 0] [0; 0; 0; 0] 4
    = Ok (Z.of_nat m, ks ++ drop m [0; 0; 0; 0], vs ++ drop m [0; 0; 0; 0]) /\
    length ks = m /\ length vs = m /\
    (forall i a b, ks !! i = Some a -> ks !! S i = Some b -> Equality a b = false) /\
    (forall (reduction_op' : Z -> Z -> Z) kr1 vr1,
       length kr1 = m -> length vr1 = m ->
       Solve Equality reduction_op' ks vs kr1 vr1 (Z.of_nat m) = Ok (Z.of_nat m, ks, vs)).
Proof.
  apply (Solve_idempotent Equality Sum [1; 1; 2; 1] [10; 20; 30; 40]
           [0; 0; 0; 0] [0; 0; 0; 0]);
    first [reflexivity | simpl; lia | unfold INT_MAX; simpl; lia | idtac].
  - intros a b H. unfold Equality in *. apply Z.eqb_eq in H. apply Z.eqb_eq. lia.
  - intros a b c H1 H2. unfold Equality in *.
    apply Z.eqb_eq in H1, H2. apply Z.eqb_eq. lia.
Defined.

(** * More on the entry points and on [Debug] *)

Section DispatchMore.
Context {KeyT ValueT : Type}.
Variable ReduceByKey : @ReduceByKeyT KeyT ValueT.

Lemma Dispatch_CUB_loop_unfold trips error d_temp_storage temp_storage_bytes
    d_keys_in d_values_in reduction_op num_items stream debug_synchronous w :
  Dispatch_CUB_loop ReduceByKey (S trips) error d_temp_storage temp_storage_bytes
    d_keys_in d_values_in reduction_op num_items stream debug_synchronous w
  = Dispatch_CUB_loop ReduceByKey trips
      (ReduceByKey d_temp_storage temp_storage_bytes d_keys_in d_values_in
         reduction_op num_items stream debug_synchronous w).1.1
      d_temp_storage
      (ReduceByKey d_temp_storage temp_storage_bytes d_keys_in d_values_in
         reduction_op num_items stream debug_synchronous w).1.2
      d_keys_in d_values_in reduction_op num_items stream debug_synchronous
      (ReduceByKey d_temp_storage temp_storage_bytes d_keys_in d_values_in
         reduction_op num_items stream debug_synchronous w).2.
Proof.
  cbn [Dispatch_CUB_loop]. by destruct (ReduceByKey _ _ _ _ _ _ _ _ _) as [[e b] w'].
Qed.

(** One more iteration of the timing loop is one more call, after the
    others, and its status is the one kept. *)
Lemma Dispatch_CUB_loop_last trips :
  forall error d_temp_storage temp_storage_bytes d_keys_in d_values_in reduction_op
         num_items stream debug_synchronous w,
    Dispatch_CUB_loop ReduceByKey (S trips) error d_temp_storage temp_storage_bytes
      d_keys_in d_values_in reduction_op num_items stream debug_synchronous w
    = ReduceByKey d_temp_storage
        (Dispatch_CUB_loop ReduceByKey trips error d_temp_storage temp_storage_bytes
           d_keys_in d_values_in reduction_op num_items stream debug_synchronous w).1.2
        d_keys_in d_values_in reduction_op num_items stream debug_synchronous
        (Dispatch_CUB_loop ReduceByKey trips error d_temp_storage temp_storage_bytes
           d_keys_in d_values_in reduction_op num_items stream debug_synchronous w).2.
Proof.
  induction trips as [|trips IH]; intros.
  - simpl. by destruct (ReduceByKey _ _ _ _ _ _ _ _ _) as [[e b] w'].
  - rewrite (Dispatch_CUB_loop_unfold (S trips)).
    rewrite IH.
    by rewrite <- !(Dispatch_CUB_loop_unfold trips error).
Qed.
End DispatchMore.

(** X5.  The direct entry point returns the status of its last call to the
    device routine and nothing of the earlier ones: with one more timing
    iteration, its outcome is that of one more call, made with the byte count
    and in the state the other iterations left, whatever their statuses were.
    With no iteration at all it makes no call, returns [cudaSuccess] and
    leaves the byte count as it was. *)
Theorem Dispatch_CUB_keeps_last_status {KeyT ValueT : Type}
    (ReduceByKey : @ReduceByKeyT KeyT ValueT)
    (timing_timing_iterations : Z) (d_temp_storage : option Z) (temp_storage_bytes : Z)
    (d_keys_in : list KeyT) (d_values_in : list ValueT)
    (equality_op : KeyT -> KeyT -> bool) (reduction_op : ValueT -> ValueT -> ValueT)
    (num_items stream : Z) (debug_synchronous : bool) (w : World KeyT ValueT) :
  let run n :=
    Dispatch_CUB ReduceByKey n d_temp_storage temp_storage_bytes d_keys_in d_values_in
      equality_op reduction_op num_items stream debug_synchronous w in
  (timing_timing_iterations <= 0 ->
   run timing_timing_iterations = ((cudaSuccess, temp_storage_bytes), w)) /\
  (0 <= timing_timing_iterations ->
   run (timing_timing_iterations + 1)
   = ReduceByKey d_temp_storage (run timing_timing_iterations).1.2 d_keys_in d_values_in
       reduction_op num_items stream debug_synchronous (run timing_timing_iterations).2).
Proof.
  intros run. subst run. cbv beta. unfold Dispatch_CUB. split.
  - intros Hn. by replace (Z.to_nat timing_timing_iterations) with 0%nat by lia.
  - intros Hn.
    replace (Z.to_nat (timing_timing_iterations + 1))
      with (S (Z.to_nat timing_timing_iterations)) by lia.
    apply Dispatch_CUB_loop_last.
Qed.

(** A failure of the first iteration is not what two iterations return. *)
Lemma Dispatch_CUB_keeps_last_status_witness :
  let run n :=
    Dispatch_CUB flaky_ReduceByKey n (Some 0) 20 [1; 1; 2] [10; 20; 30] Equality Sum
      3 0 false (example_world 3) in
  run 0 = ((cudaSuccess, 20), example_world 3) /\
  (run 1).1.1 = 2 /\
  run (1 + 1) = flaky_ReduceByKey (Some 0) (run 1).1.2 [1; 1; 2] [10; 20; 30] Sum 3 0 false
                  (run 1).2 /\
  (run (1 + 1)).1.1 = cudaSuccess.
Proof.
  destruct (Dispatch_CUB_keeps_last_status flaky_ReduceByKey 0 (Some 0) 20
              [1; 1; 2] [10; 20; 30] Equality Sum 3 0 false (example_world 3)) as [H0 _].
  destruct (Dispatch_CUB_keeps_last_status flaky_ReduceByKey 1 (Some 0) 20
              [1; 1; 2] [10; 20; 30] Equality Sum 3 0 false (example_world 3)) as [_ H1].
  split; [apply H0; lia|]. split; [reflexivity|]. split; [apply H1; lia|]. reflexivity.
Defined.

(** X6.  The nested-dispatch entry point never returns a failure of its own
    launch or of either of its two copies: it returns, with the outcome of
    the nested call, exactly when the runtime accepts the launch, the copy
    of the byte count and the copy of the status, and leaves the process
    with [exit(1)] in every other case, having reported the failure once on
    [stderr] with the source line of the check that caught it and cleared
    the error flag.  When the launch is refused the kernel does not run and
    the device memory is as before; when a copy fails the device memory is
    what the kernel left. *)
Theorem Dispatch_CDP_outcome {KeyT ValueT : Type}
    (ReduceByKey : @ReduceByKeyT KeyT ValueT)
    (launch_status : Z -> Z -> Z -> Z -> cudaError_t)
    (cudaMemcpy_status : DeviceCell -> DeviceMemory KeyT ValueT -> cudaError_t)
    (cudaGetErrorString : cudaError_t -> string)
    (timing_timing_iterations : Z) (d_temp_storage : option Z) (temp_storage_bytes : Z)
    (d_keys_in : list KeyT) (d_values_in : list ValueT)
    (equality_op : KeyT -> KeyT -> bool) (reduction_op : ValueT -> ValueT -> ValueT)
    (num_items stream : Z) (debug_synchronous : bool) (w : World KeyT ValueT) :
  let bridge :=
    Dispatch_CDP ReduceByKey launch_status cudaMemcpy_status cudaGetErrorString
      timing_timing_iterations d_temp_storage temp_storage_bytes
      d_keys_in d_values_in equality_op reduction_op num_items stream debug_synchronous w in
  let kernel :=
    CDPDispatchKernel ReduceByKey timing_timing_iterations d_temp_storage temp_storage_bytes
      d_keys_in d_values_in equality_op reduction_op num_items debug_synchronous w in
  let nested :=
    Dispatch_CUB ReduceByKey timing_timing_iterations d_temp_storage temp_storage_bytes
      d_keys_in d_values_in equality_op reduction_op num_items 0 debug_synchronous w in
  let launched := launch_status 1 1 0 stream in
  let copied_bytes := cudaMemcpy_status cell_temp_storage_bytes (memory kernel) in
  let copied_error := cudaMemcpy_status cell_cdp_error (memory kernel) in
  let report status line :=
    [GetLastError status;
     StderrError status "test_device_reduce_by_key.cu" line (cudaGetErrorString status);
     StderrFlush] in
  bridge.1
  = (if decide (launched = cudaSuccess /\ copied_bytes = cudaSuccess /\
                copied_error = cudaSuccess)
     then Returned nested.1 else Exited 1) /\
  (launched <> cudaSuccess ->
   bridge = (Exited 1, mkWorld cudaSuccess (trace w ++ report launched 236) (memory w))) /\
  (launched = cudaSuccess -> copied_bytes <> cudaSuccess ->
   bridge
   = (Exited 1,
      mkWorld cudaSuccess
        (trace kernel ++ GetLastError (last_error kernel) :: report copied_bytes 239)
        (memory kernel))) /\
  (launched = cudaSuccess -> copied_bytes = cudaSuccess -> copied_error <> cudaSuccess ->
   bridge
   = (Exited 1,
      mkWorld cudaSuccess
        (trace kernel ++ GetLastError (last_error kernel) :: GetLastError cudaSuccess
           :: report copied_error 245)
        (memory kernel))).
Proof.
  intros bridge kernel nested launched copied_bytes copied_error report.
  assert (Hmem : memory kernel
                 = set_d_temp_storage_bytes nested.1.2
                     (set_d_cdp_error nested.1.1 (memory nested.2))).
  { subst kernel nested. unfold CDPDispatchKernel.
    by destruct (Dispatch_CUB _ _ _ _ _ _ _ _ _ 0 _ _) as [[e b] w0]. }
  assert (Hexit : forall e filename line
                         (k : World KeyT ValueT -> result (cudaError_t * Z) * World KeyT ValueT)
                         le tr m,
            e <> cudaSuccess ->
            CubDebugExit cudaGetErrorString e filename line k (mkWorld le tr m)
            = (Exited 1,
               mkWorld cudaSuccess
                 (tr ++ [GetLastError le;
                         StderrError e filename line (cudaGetErrorString e); StderrFlush])
                 m)).
  { intros e filename line k le tr m He.
    unfold CubDebugExit, Debug, cudaGetLastError, emit.
    cbn [snd fst last_error trace memory].
    rewrite !decide_True by done. cbn [snd fst last_error trace memory].
    by rewrite <- !app_assoc. }
  assert (Hbridge :
            bridge
            = if decide (launched = cudaSuccess) then
                if decide (copied_bytes = cudaSuccess) then
                  if decide (copied_error = cudaSuccess) then
                    (Returned nested.1,
                     mkWorld cudaSuccess
                       (trace kernel ++ [GetLastError (last_error kernel);
                                         GetLastError cudaSuccess; GetLastError cudaSuccess])
                       (memory kernel))
                  else
                    (Exited 1,
                     mkWorld cudaSuccess
                       (trace kernel ++ GetLastError (last_error kernel)
                          :: GetLastError cudaSuccess :: report copied_error 245)
                       (memory kernel))
                else
                  (Exited 1,
                   mkWorld cudaSuccess
                     (trace kernel ++ GetLastError (last_error kernel)
                        :: report copied_bytes 239)
                     (memory kernel))
              else
                (Exited 1, mkWorld cudaSuccess (trace w ++ report launched 236) (memory w))).
  { subst bridge. unfold Dispatch_CDP, triple_chevron_doit. fold launched.
    destruct (decide (launched = cudaSuccess)) as [Hl|Hl].
    - fold kernel. rewrite CubDebugExit_success.
      unfold cudaMemcpy_to_host. cbn [cudaGetLastError snd memory]. fold copied_bytes.
      destruct (decide (copied_bytes = cudaSuccess)) as [Hc|Hc].
      + rewrite CubDebugExit_success. cbn [cudaGetLastError snd memory last_error trace].
        fold copied_error.
        destruct (decide (copied_error = cudaSuccess)) as [Hc'|Hc'].
        * rewrite CubDebugExit_success. cbn [cudaGetLastError snd memory last_error trace].
          cbn [read_cell]. rewrite Hmem. cbn [d_cdp_error d_temp_storage_bytes
            set_d_temp_storage_bytes set_d_cdp_error].
          rewrite <- !app_assoc. by destruct nested as [[e b] w0].
        * cbn [last_error trace memory]. rewrite Hexit by done.
          by rewrite <- !app_assoc.
      + cbn [last_error trace memory]. rewrite Hexit by done. by rewrite <- !app_assoc.
    - destruct w as [le tr m]. cbn [last_error trace memory]. by rewrite Hexit. }
  rewrite Hbridge. split; [|split; [|split]].
  - destruct (decide (launched = cudaSuccess)) as [Hl|Hl];
      [destruct (decide (copied_bytes = cudaSuccess)) as [Hc|Hc];
       [destruct (decide (copied_error = cudaSuccess)) as [Hc'|Hc']|]|];
      first [by rewrite decide_True | by rewrite decide_False by tauto].
  - intros Hl. by rewrite decide_False.
  - intros Hl Hc. rewrite decide_True by done. by rewrite decide_False.
  - intros Hl Hc Hc'. rewrite !decide_True by done. by rewrite decide_False.
Qed.

(** A copy of the status that fails after the copy of the byte count went
    through: the bridge leaves the process at line 245. *)
Lemma Dispatch_CDP_outcome_witness :
  Dispatch_CDP example_ReduceByKey (fun _ _ _ _ => cudaSuccess)
    (fun cell _ => match cell with cell_cdp_error => 11 | _ => cudaSuccess end)
    (fun _ => "invalid argument"%string)
    1 (Some 0) 20 [1; 1; 2] [10; 20; 30] Equality Sum 3 0 false (example_world 3)
  = (Exited 1,
     mkWorld cudaSuccess
       [GetLastError 0; GetLastError 0; GetLastError 0;
        GetLastError 0; GetLastError 0;
        GetLastError 11;
        StderrError 11 "test_device_reduce_by_key.cu" 245 "invalid argument";
        StderrFlush]
       (mkDeviceMemory [1; 2; 0] [30; 30; 0] 2 20 0 [])).
Proof.
  apply (proj2 (proj2 (proj2
           (Dispatch_CDP_outcome example_ReduceByKey (fun _ _ _ _ => cudaSuccess)
              (fun cell _ => match cell with cell_cdp_error => 11 | _ => cudaSuccess end)
              (fun _ => "invalid argument"%string)
              1 (Some 0) 20 [1; 1; 2] [10; 20; 30] Equality Sum 3 0 false
              (example_world 3)))));
    first [reflexivity | unfold cudaSuccess; lia].
Defined.

(** * Test generation *)

Lemma store_at_end {A} name (d : list A) y t x :
  store name (d ++ y :: t) (Z.of_nat (length d)) x = Ok (d ++ x :: t).
Proof.
  unfold store. rewrite decide_True by (rewrite length_app; simpl; lia).
  rewrite Nat2Z.id, insert_app_r_alt by lia. by rewrite Nat.sub_diag.
Qed.

Section InitializeFacts.
Context {T : Type}.
Variable InitValue : Z -> T.
Variable scaled_random : Z -> Z -> Z -> Z.
Variable g_verbose : bool.

Lemma Initialize_fill_spec trips : forall (filled todo : list T) key,
  (trips <= length todo)%nat ->
  Z.of_nat (length filled + trips) <= INT_MAX ->
  Initialize_fill InitValue trips (Z.of_nat (length filled)) key (filled ++ todo)
  = Ok (Z.of_nat (length filled + trips),
        filled ++ replicate trips (InitValue key) ++ drop trips todo).
Proof.
  induction trips as [|trips IH]; intros filled todo key Hlen Hmax.
  - simpl. by rewrite Nat.add_0_r.
  - destruct todo as [|y todo]; [simpl in Hlen; lia|]. simpl in Hlen.
    cbn [Initialize_fill]. rewrite store_at_end. cbn [mbind exec_bind].
    rewrite int_incr_Ok by lia. cbn [mbind exec_bind].
    replace (Z.of_nat (length filled) + 1) with (Z.of_nat (length (filled ++ [InitValue key])))
      by (rewrite length_app; simpl; lia).
    replace (filled ++ InitValue key :: todo) with ((filled ++ [InitValue key]) ++ todo)
      by (by rewrite <- app_assoc).
    rewrite IH by (rewrite ?length_app; simpl; lia).
    rewrite length_app. simpl. rewrite <- app_assoc. simpl.
    do 2 f_equal. lia.
Qed.

Lemma Initialize_repeat_pos entropy_reduction num_items max_segment key i :
  i < num_items -> 0 <= i ->
  1 <= Initialize_repeat scaled_random entropy_reduction num_items max_segment key.
Proof. intros. unfold Initialize_repeat. repeat case_decide; lia. Qed.

Lemma Initialize_loop_spec entropy_reduction num_items max_segment fuel :
  num_items <= INT_MAX ->
  (2 <= max_segment ->
   num_items + max_segment <= INT_MAX /\
   forall key, scaled_random entropy_reduction max_segment key <= max_segment) ->
  forall key (filled todo : list T),
    Z.of_nat (length filled + length todo) = num_items ->
    0 <= key <= Z.of_nat (length filled) ->
    (length todo <= fuel)%nat ->
    (max_segment < 0 -> todo <> [] -> filled = []) ->
    exists lens,
      Initialize_loop InitValue scaled_random fuel entropy_reduction num_items max_segment
        key (Z.of_nat (length filled)) (filled ++ todo)
      = Some (Ok (filled ++ segments InitValue key lens)) /\
      sum_list lens = length todo /\
      Forall (fun len => (1 <= len)%nat) lens /\
      (max_segment < 0 -> (length lens <= 1)%nat) /\
      (0 <= max_segment < 2 -> Forall (fun len => len = 1%nat) lens) /\
      (2 <= max_segment -> Forall (fun len => Z.of_nat len <= max_segment) lens).
Proof.
  intros Hmax Hrand.
  induction fuel as [|fuel IH]; intros key filled todo Hn Hkey Hfuel Hneg.
  - destruct todo; [|simpl in Hfuel; lia]. exists []. simpl in *.
    rewrite decide_False by lia. rewrite !app_nil_r. repeat split; try done; lia.
  - destruct todo as [|y todo'] eqn:Htodo.
    { exists []. simpl in *. rewrite decide_False by lia.
      rewrite !app_nil_r. repeat split; try done; lia. }
    rewrite <- Htodo in *. assert (Hne : todo <> []) by (by rewrite Htodo).
    assert (Hlt : (1 <= length todo)%nat) by (rewrite Htodo; simpl; lia).
    clear Htodo y todo'.
    cbn [Initialize_loop]. rewrite decide_True by lia.
    unfold Initialize_segment.
    set (r := Initialize_repeat scaled_random entropy_reduction num_items max_segment key).
    assert (Hr1 : 1 <= r).
    { apply (Initialize_repeat_pos _ _ _ _ (Z.of_nat (length filled))); lia. }
    assert (Hr2 : Z.of_nat (length filled) + r <= INT_MAX).
    { subst r. unfold Initialize_repeat. repeat case_decide.
      - rewrite (Hneg ltac:(lia) Hne). simpl. lia.
      - lia.
      - destruct (Hrand ltac:(lia)) as [Hb Hs].
        specialize (Hs key). lia. }
    unfold int_add. rewrite decide_True by (unfold INT_MIN; lia).
    cbn [mbind exec_bind].
    set (len := Z.to_nat (Z.min (Z.of_nat (length filled) + r) num_items
                          - Z.of_nat (length filled))).
    assert (Hlen : (1 <= len <= length todo)%nat) by lia.
    rewrite Initialize_fill_spec by lia. cbn [mbind exec_bind fst snd].
    rewrite int_incr_Ok by lia. cbn [mbind exec_bind mret exec_ret].
    rewrite app_assoc.
    replace (Z.of_nat (length filled + len))
      with (Z.of_nat (length (filled ++ replicate len (InitValue key))))
      by (by rewrite length_app, length_replicate).
    destruct (IH (key + 1) (filled ++ replicate len (InitValue key)) (drop len todo))
      as (lens & HI & Hsum & Hpos & Hl1 & Hl2 & Hl3).
    + rewrite length_app, length_replicate, length_drop. lia.
    + rewrite length_app, length_replicate. lia.
    + rewrite length_drop. lia.
    + intros Hms Hd. exfalso. apply Hd.
      assert (len = length todo).
      { subst len r. unfold Initialize_repeat. rewrite decide_True by done.
        rewrite (Hneg Hms Hne) in *. simpl in *. lia. }
      apply nil_length_inv. rewrite length_drop. lia.
    + exists (len :: lens). rewrite HI. cbn [segments]. rewrite <- app_assoc.
      split; [done|]. split; [simpl; rewrite Hsum, length_drop; lia|].
      split; [constructor; [lia|done]|].
      split; [|split].
      * intros Hms.
        assert (len = length todo).
        { subst len r. unfold Initialize_repeat. rewrite decide_True by done.
          rewrite (Hneg Hms Hne) in *. simpl in *. lia. }
        rewrite length_drop in Hsum.
        destruct lens as [|l lens]; [simpl; lia|].
        inversion Hpos; subst. simpl in Hsum. lia.
      * intros Hms. constructor; [|by apply Hl2].
        subst len r. unfold Initialize_repeat.
        rewrite decide_False, decide_True by lia. lia.
      * intros Hms. constructor; [|by apply Hl3].
        subst len r. unfold Initialize_repeat.
        rewrite !decide_False by lia.
        destruct (Hrand Hms) as [_ Hs]. specialize (Hs key). lia.
Qed.
End InitializeFacts.

(** What [Initialize] leaves in the array. *)
Lemma Initialize_spec {T : Type} (InitValue : Z -> T)
    (scaled_random : Z -> Z -> Z -> Z) (g_verbose : bool)
    (entropy_reduction : Z) (h_in : list T) (num_items max_segment : Z) :
  0 <= num_items <= INT_MAX ->
  Z.of_nat (length h_in) = num_items ->
  (2 <= max_segment ->
   num_items + max_segment <= INT_MAX /\
   forall key, scaled_random entropy_reduction max_segment key <= max_segment) ->
  exists lens printed,
    Initialize InitValue scaled_random g_verbose entropy_reduction h_in num_items max_segment
    = Some (Ok (segments InitValue 0 lens, printed)) /\
    sum_list lens = length h_in /\
    Forall (fun len => (1 <= len)%nat) lens /\
    (max_segment < 0 -> (length lens <= 1)%nat) /\
    (0 <= max_segment < 2 -> lens = replicate (length h_in) 1%nat) /\
    (2 <= max_segment -> Forall (fun len => Z.of_nat len <= max_segment) lens) /\
    (g_verbose = false -> printed = []).
Proof.
  intros Hn Hlen Hrand.
  destruct (Initialize_loop_spec InitValue scaled_random entropy_reduction num_items
              max_segment (Z.to_nat num_items) (proj2 Hn) Hrand 0 [] h_in)
    as (lens & HI & Hsum & Hpos & Hl1 & Hl2 & Hl3); try done; try (simpl; lia).
  simpl in HI. change (Z.of_nat 0) with 0 in HI. unfold Initialize. rewrite HI.
  eexists lens, _. split; [done|]. split; [done|]. split; [done|]. split; [done|].
  split; [|split; [done|]].
  - intros Hms. specialize (Hl2 Hms). rewrite <- Hsum. clear -Hl2.
    induction Hl2 as [|len lens -> _ IH]; [done|]. simpl. f_equal. exact IH.
  - by intros ->.
Qed.

(** X7.  [Initialize] on an array of [num_items] items (as many as an [int]
    counts) finishes without an access out of bounds or an overflow, and
    leaves segments of consecutive key values from 0 on, each of at least one
    item, that take up the whole array: a single segment when
    [max_segment < 0], segments of one item when [max_segment] is 0 or 1, and
    segments of at most [max_segment] items otherwise, when what is drawn for
    a segment does not exceed [max_segment] and [num_items + max_segment] is
    an [int]. *)
Theorem Initialize_fills_segments {T : Type} (InitValue : Z -> T)
    (scaled_random : Z -> Z -> Z -> Z) (g_verbose : bool)
    (entropy_reduction : Z) (h_in : list T) (num_items max_segment : Z) :
  0 <= num_items <= INT_MAX ->
  Z.of_nat (length h_in) = num_items ->
  (2 <= max_segment ->
   num_items + max_segment <= INT_MAX /\
   forall key, scaled_random entropy_reduction max_segment key <= max_segment) ->
  exists lens printed,
    Initialize InitValue scaled_random g_verbose entropy_reduction h_in num_items max_segment
    = Some (Ok (segments InitValue 0 lens, printed)) /\
    sum_list lens = length h_in /\
    Forall (fun len => (1 <= len)%nat) lens /\
    (max_segment < 0 -> (length lens <= 1)%nat) /\
    (0 <= max_segment < 2 -> lens = replicate (length h_in) 1%nat) /\
    (2 <= max_segment -> Forall (fun len => Z.of_nat len <= max_segment) lens) /\
    (g_verbose = false -> printed = []).
Proof. apply Initialize_spec. Qed.

Lemma Initialize_fills_segments_witness :
  exists lens printed,
    Initialize (fun key => key) (fun _ _ _ => 2) false 0 [9; 9; 9; 9; 9] 5 3
    = Some (Ok (segments (fun key => key) 0 lens, printed)) /\
    sum_list lens = length [9; 9; 9; 9; 9] /\
    Forall (fun len => (1 <= len)%nat) lens /\
    (3 < 0 -> (length lens <= 1)%nat) /\
    (0 <= 3 < 2 -> lens = replicate (length [9; 9; 9; 9; 9]) 1%nat) /\
    (2 <= 3 -> Forall (fun len => Z.of_nat len <= 3) lens) /\
    (false = false -> printed = []).
Proof.
  apply (Initialize_fills_segments (fun key => key) (fun _ _ _ => 2) false 0
           [9; 9; 9; 9; 9] 5 3);
    first [reflexivity | unfold INT_MAX; lia | idtac].
  intros _. split; [unfold INT_MAX; lia | intros; lia].
Defined.

(** The generator in its three modes. *)
Example Initialize_modes :
  Initialize (fun key => key) (fun _ _ _ => 2) false 0 [9; 9; 9; 9; 9] 5 (-1)
  = Some (Ok ([0; 0; 0; 0; 0], [])) /\
  Initialize (fun key => key) (fun _ _ _ => 2) false 0 [9; 9; 9; 9; 9] 5 1
  = Some (Ok ([0; 1; 2; 3; 4], [])) /\
  Initialize (fun key => key) (fun _ _ _ => 2) false 0 [9; 9; 9; 9; 9] 5 3
  = Some (Ok ([0; 0; 1; 1; 2], [])) /\
  Initialize (fun key => key) (fun _ _ _ => 2) false 0 [] 0 3 = Some (Ok ([], [])) /\
  Initialize (fun key => key) (fun _ _ _ => 2) false 0 [9; 9] 5 3
  = Some (Undefined (OutOfBounds keys_in 2)).
Proof. repeat split. Qed.

(** ** The reference on generated keys *)

Section SolveSegments.
Context {KeyT ValueT : Type}.
Variable InitValue : Z -> KeyT.
Variable equality_op : KeyT -> KeyT -> bool.
Variable reduction_op : ValueT -> ValueT -> ValueT.
Hypothesis same_key : forall key, equality_op (InitValue key) (InitValue key) = true.
Hypothesis next_key : forall key, equality_op (InitValue key) (InitValue (key + 1)) = false.

(** The items of the current segment are folded into the aggregate. *)
Lemma Solve_scan_same_key a : forall key agg (vals : list ValueT) rest,
  length vals = a ->
  Solve_scan equality_op reduction_op (InitValue key) agg
    (zip (replicate a (InitValue key)) vals ++ rest)
  = Solve_scan equality_op reduction_op (InitValue key)
      (foldl reduction_op agg vals) rest.
Proof.
  induction a as [|a IH]; intros key agg vals rest Hlen.
  - by destruct vals.
  - destruct vals as [|v vals]; [done|]. simpl in Hlen.
    simpl. rewrite same_key. simpl. apply IH. lia.
Qed.

(** One emitted pair per segment still to come, and one for the segment of
    [key]; the values are the folds over the segments. *)
Lemma Solve_scan_segments lens : forall a key agg (vals : list ValueT),
  length vals = (a + sum_list lens)%nat ->
  Forall (fun len => (1 <= len)%nat) lens ->
  exists aggs,
    (Solve_scan equality_op reduction_op (InitValue key) agg
       (zip (replicate a (InitValue key) ++ segments InitValue (key + 1) lens) vals)).1
      ++ [(Solve_scan equality_op reduction_op (InitValue key) agg
             (zip (replicate a (InitValue key) ++ segments InitValue (key + 1) lens) vals)).2]
    = zip (InitValue <$> seqZ key (Z.of_nat (S (length lens)))) aggs /\
    length aggs = S (length lens) /\
    (forall one, vals = replicate (a + sum_list lens) one ->
       aggs = foldl reduction_op agg (replicate a one)
              :: ((fun len => foldl reduction_op one (replicate (len - 1) one)) <$> lens)).
Proof.
  induction lens as [|len lens IH]; intros a key agg vals Hlen Hpos.
  - simpl in *. rewrite app_nil_r.
    pose proof (Solve_scan_same_key a key agg vals [] ltac:(lia)) as HS.
    rewrite app_nil_r in HS. rewrite HS. simpl.
    exists [foldl reduction_op agg vals]. split; [done|]. split; [done|].
    intros one ->. by rewrite Nat.add_0_r.
  - inversion Hpos as [|? ? Hl Hpos']; subst.
    destruct len as [|len]; [lia|]. clear Hl.
    cbn [segments] in *.
    change (sum_list (S len :: lens)) with (S len + sum_list lens)%nat in *.
    assert (Hsplit : vals = take a vals ++ drop a vals) by (by rewrite take_drop).
    assert (Hta : length (take a vals) = a) by (rewrite length_take; lia).
    destruct (drop a vals) as [|v vals'] eqn:Hd.
    { apply (f_equal length) in Hd. rewrite length_drop in Hd. simpl in Hd. lia. }
    assert (Hv' : length vals' = (len + sum_list lens)%nat).
    { apply (f_equal length) in Hd. rewrite length_drop in Hd. simpl in Hd. lia. }
    clear Hd. set (first := take a vals) in *. clearbody first. subst vals.
    rewrite zip_with_app by (by rewrite length_replicate).
    rewrite Solve_scan_same_key by done.
    cbn [replicate app zip_with Solve_scan]. rewrite next_key. cbn [negb].
    destruct (IH len (key + 1) v vals' Hv' Hpos') as (aggs & HI & Hla & Hone).
    destruct (Solve_scan equality_op reduction_op (InitValue (key + 1)) v
                (zip (replicate len (InitValue (key + 1))
                        ++ segments InitValue (key + 1 + 1) lens) vals'))
      as [out open].
    cbn [fst snd] in *.
    exists (foldl reduction_op agg first :: aggs).
    split; [|split].
    + rewrite (seqZ_cons key) by lia. rewrite fmap_cons. cbn [zip_with app].
      rewrite HI. cbn [length].
      replace (Z.succ key) with (key + 1) by lia.
      replace (Z.pred (Z.of_nat (S (S (length lens))))) with (Z.of_nat (S (length lens)))
        by lia.
      done.
    + simpl. by rewrite Hla.
    + intros one Hvals.
      assert (Hta1 : first = replicate a one).
      { apply (f_equal (take a)) in Hvals.
        rewrite take_app_length' in Hvals by done.
        rewrite Hvals, take_replicate. f_equal. lia. }
      assert (Hd1 : v :: vals' = replicate (S len + sum_list lens) one).
      { apply (f_equal (drop a)) in Hvals.
        rewrite drop_app_length' in Hvals by done.
        rewrite Hvals, drop_replicate. f_equal. lia. }
      simpl in Hd1. injection Hd1 as -> Hd1.
      rewrite (Hone one Hd1). rewrite Hta1. simpl. by rewrite Nat.sub_0_r.
Qed.
End SolveSegments.

Section SolveGenerated.
Context {KeyT ValueT : Type}.
Variable InitValue : Z -> KeyT.
Variable equality_op : KeyT -> KeyT -> bool.
Variable reduction_op : ValueT -> ValueT -> ValueT.
Hypothesis same_key : forall key, equality_op (InitValue key) (InitValue key) = true.
Hypothesis next_key : forall key, equality_op (InitValue key) (InitValue (key + 1)) = false.

(** [Solve] on keys made of segments: one run per segment, under the key
    values in order, holding the folds of the values of the segments. *)
Lemma Solve_on_segments (lens : list nat) (values : list ValueT) kr0 vr0 :
  (1 <= sum_list lens)%nat ->
  Z.of_nat (sum_list lens) <= INT_MAX ->
  Forall (fun len => (1 <= len)%nat) lens ->
  length values = sum_list lens ->
  length kr0 = sum_list lens ->
  length vr0 = sum_list lens ->
  exists aggs,
    Solve equality_op reduction_op (segments InitValue 0 lens) values kr0 vr0
      (Z.of_nat (sum_list lens))
    = Ok (Z.of_nat (length lens),
          (InitValue <$> seqZ 0 (Z.of_nat (length lens))) ++ drop (length lens) kr0,
          aggs ++ drop (length lens) vr0) /\
    length aggs = length lens /\
    (forall one, values = replicate (sum_list lens) one ->
       aggs = (fun len => foldl reduction_op one (replicate (len - 1) one)) <$> lens).
Proof.
  intros Hn Hmax Hpos Hv Hkr Hvr.
  assert (Hklen : length (segments InitValue 0 lens) = sum_list lens).
  { clear. generalize 0. induction lens as [|len lens IH]; intros key; [done|].
    simpl. rewrite length_app, length_replicate, IH. done. }
  pose proof (Solve_pairs_spec equality_op reduction_op (segments InitValue 0 lens)
                values kr0 vr0) as HS.
  cbv zeta in HS. rewrite Hklen in HS. rewrite HS by (try done; lia). clear HS.
  destruct lens as [|len lens]; [simpl in Hn; lia|].
  inversion Hpos as [|? ? Hl Hpos']; subst.
  destruct len as [|len]; [lia|]. clear Hl.
  change (sum_list (S len :: lens)) with (S len + sum_list lens)%nat in *.
  destruct values as [|v0 vals]; [simpl in Hv; lia|]. simpl in Hv.
  cbn [segments replicate app zip_with Solve_pairs].
  destruct (Solve_scan_segments InitValue equality_op reduction_op same_key next_key
              lens len 0 v0 vals ltac:(lia) Hpos') as (aggs & HI & Hla & Hone).
  destruct (Solve_scan equality_op reduction_op (InitValue 0) v0
              (zip (replicate len (InitValue 0) ++ segments InitValue (0 + 1) lens) vals))
    as [out open].
  cbn [fst snd] in HI. rewrite HI.
  assert (Hseq : length (InitValue <$> seqZ 0 (Z.of_nat (S (length lens))))
                 = S (length lens)).
  { rewrite length_fmap, length_seqZ. lia. }
  rewrite fst_zip, snd_zip by lia.
  rewrite length_zip_with, Hseq, Hla, Nat.min_id.
  exists aggs. split; [done|]. split; [done|].
  intros one Hones. simpl in Hones. injection Hones as -> Hones.
  rewrite (Hone one Hones). simpl. by rewrite Nat.sub_0_r.
Qed.
End SolveGenerated.

(** X8.  The reference finds the segments the generator made.  For a key type
    on which [InitValue] gives every key a value that compares equal to
    itself and unequal to the value of the next key, [Solve] on the keys
    [Initialize] leaves, with any values, returns the number of segments
    generated and emits the values of the keys 0, 1, 2, ... in order: one
    segment when [max_segment < 0], [num_items] segments when [max_segment]
    is 0 or 1. *)
Theorem Solve_after_Initialize {KeyT ValueT : Type} (InitValue : Z -> KeyT)
    (scaled_random : Z -> Z -> Z -> Z) (g_verbose : bool)
    (equality_op : KeyT -> KeyT -> bool) (reduction_op : ValueT -> ValueT -> ValueT)
    (entropy_reduction : Z) (h_in : list KeyT) (values : list ValueT)
    (kr0 : list KeyT) (vr0 : list ValueT) (num_items max_segment : Z) :
  (forall key, equality_op (InitValue key) (InitValue key) = true) ->
  (forall key, equality_op (InitValue key) (InitValue (key + 1)) = false) ->
  1 <= num_items <= INT_MAX ->
  Z.of_nat (length h_in) = num_items ->
  Z.of_nat (length values) = num_items ->
  Z.of_nat (length kr0) = num_items ->
  Z.of_nat (length vr0) = num_items ->
  (2 <= max_segment ->
   num_items + max_segment <= INT_MAX /\
   forall key, scaled_random entropy_reduction max_segment key <= max_segment) ->
  exists lens printed vr,
    Initialize InitValue scaled_random g_verbose entropy_reduction h_in num_items max_segment
    = Some (Ok (segments InitValue 0 lens, printed)) /\
    Z.of_nat (sum_list lens) = num_items /\
    Solve equality_op reduction_op (segments InitValue 0 lens) values kr0 vr0 num_items
    = Ok (Z.of_nat (length lens),
          (InitValue <$> seqZ 0 (Z.of_nat (length lens))) ++ drop (length lens) kr0,
          vr) /\
    (max_segment < 0 -> length lens = 1%nat) /\
    (0 <= max_segment < 2 -> Z.of_nat (length lens) = num_items).
Proof.
  intros Hsame Hnext Hn Hh Hv Hkr Hvr Hrand.
  destruct (Initialize_spec InitValue scaled_random g_verbose entropy_reduction h_in
              num_items max_segment ltac:(lia) Hh Hrand)
    as (lens & printed & HI & Hsum & Hpos & Hl1 & Hl2 & _).
  destruct (Solve_on_segments InitValue equality_op reduction_op Hsame Hnext lens values
              kr0 vr0) as (aggs & HS & Hla & _); try lia; try done.
  exists lens, printed. eexists. split; [exact HI|]. split; [lia|].
  split; [|split].
  - rewrite <- HS. f_equal. lia.
  - intros Hms. specialize (Hl1 Hms).
    destruct lens as [|len [|]]; simpl in *; lia.
  - intros Hms. rewrite (Hl2 Hms), length_replicate. lia.
Qed.

Lemma Solve_after_Initialize_witness :
  exists lens printed vr,
    Initialize (fun key => key) (fun _ _ _ => 2) false 0 [9; 9; 9; 9; 9] 5 3
    = Some (Ok (segments (fun key => key) 0 lens, printed)) /\
    Z.of_nat (sum_list lens) = 5 /\
    Solve Equality Sum (segments (fun key => key) 0 lens) [1; 1; 1; 1; 1]
      [7; 7; 7; 7; 7] [8; 8; 8; 8; 8] 5
    = Ok (Z.of_nat (length lens),
          ((fun key => key) <$> seqZ 0 (Z.of_nat (length lens)))
            ++ drop (length lens) [7; 7; 7; 7; 7],
          vr) /\
    (3 < 0 -> length lens = 1%nat) /\
    (0 <= 3 < 2 -> Z.of_nat (length lens) = 5).
Proof.
  apply (Solve_after_Initialize (fun key => key) (fun _ _ _ => 2) false Equality Sum 0
           [9; 9; 9; 9; 9] [1; 1; 1; 1; 1] [7; 7; 7; 7; 7] [8; 8; 8; 8; 8] 5 3);
    first [reflexivity | unfold INT_MAX; lia | idtac].
  - intros key. unfold Equality. apply Z.eqb_refl.
  - intros key. unfold Equality. apply Z.eqb_neq. lia.
  - intros _. split; [unfold INT_MAX; lia | intros; lia].
Defined.

(** ** [TestPointer] up to the reference solution *)

Lemma TestPointer_values_spec {ValueT : Type} (InitValueV : Z -> ValueT) trips :
  forall (filled todo : list ValueT),
    (trips <= length todo)%nat ->
    Z.of_nat (length filled + trips) <= INT_MAX ->
    TestPointer_values InitValueV trips (Z.of_nat (length filled)) (filled ++ todo)
    = Ok (filled ++ replicate trips (InitValueV 1) ++ drop trips todo).
Proof.
  induction trips as [|trips IH]; intros filled todo Hlen Hmax; [done|].
  destruct todo as [|y todo]; [simpl in Hlen; lia|]. simpl in Hlen.
  cbn [TestPointer_values]. rewrite store_at_end. cbn [mbind exec_bind].
  rewrite int_incr_Ok by lia. cbn [mbind exec_bind].
  replace (Z.of_nat (length filled) + 1) with (Z.of_nat (length (filled ++ [InitValueV 1])))
    by (rewrite length_app; simpl; lia).
  replace (filled ++ InitValueV 1 :: todo) with ((filled ++ [InitValueV 1]) ++ todo)
    by (by rewrite <- app_assoc).
  rewrite IH by (rewrite ?length_app; simpl; lia).
  rewrite <- app_assoc. done.
Qed.

Section TestPointerFacts.
Context {KeyT ValueT : Type}.
Variable InitValueK : Z -> KeyT.
Variable InitValueV : Z -> ValueT.
Variable scaled_random : Z -> Z -> Z -> Z.
Variable g_verbose : bool.
Variable equality_op : KeyT -> KeyT -> bool.
Hypothesis same_key : forall key, equality_op (InitValueK key) (InitValueK key) = true.
Hypothesis next_key :
  forall key, equality_op (InitValueK key) (InitValueK (key + 1)) = false.

(** With at least one item the host side runs through: the values are all
    the value of 1, the keys are segments, and the reference holds one run
    per segment. *)
Lemma TestPointer_reference_spec (num_items entropy_reduction max_segment : Z)
    (reduction_op : ValueT -> ValueT -> ValueT)
    (h_keys_in h_keys_reference : list KeyT) (h_values_in h_values_reference : list ValueT) :
  1 <= num_items <= INT_MAX ->
  Z.of_nat (length h_keys_in) = num_items ->
  Z.of_nat (length h_keys_reference) = num_items ->
  Z.of_nat (length h_values_in) = num_items ->
  Z.of_nat (length h_values_reference) = num_items ->
  (2 <= max_segment ->
   num_items + max_segment <= INT_MAX /\
   forall key, scaled_random entropy_reduction max_segment key <= max_segment) ->
  exists lens,
    TestPointer_reference InitValueK InitValueV scaled_random g_verbose equality_op
      num_items entropy_reduction max_segment reduction_op
      h_keys_in h_keys_reference h_values_in h_values_reference
    = Some (Ok (segments InitValueK 0 lens,
                replicate (Z.to_nat num_items) (InitValueV 1),
                Z.of_nat (length lens),
                (InitValueK <$> seqZ 0 (Z.of_nat (length lens)))
                  ++ drop (length lens) h_keys_reference,
                ((fun len => foldl reduction_op (InitValueV 1)
                               (replicate (len - 1) (InitValueV 1))) <$> lens)
                  ++ drop (length lens) h_values_reference)) /\
    Z.of_nat (sum_list lens) = num_items /\
    Forall (fun len => (1 <= len)%nat) lens /\
    (1 <= length lens <= sum_list lens)%nat.
Proof.
  intros Hn Hk Hkr Hv Hvr Hrand. unfold TestPointer_reference.
  pose proof (TestPointer_values_spec InitValueV (Z.to_nat num_items) [] h_values_in) as HV.
  simpl in HV. change (Z.of_nat 0) with 0 in HV. rewrite HV by lia. clear HV.
  rewrite drop_ge, app_nil_r by lia.
  destruct (Initialize_spec InitValueK scaled_random g_verbose entropy_reduction h_keys_in
              num_items max_segment ltac:(lia) Hk Hrand)
    as (lens & printed & HI & Hsum & Hpos & _).
  rewrite HI.
  destruct (Solve_on_segments InitValueK equality_op reduction_op same_key next_key lens
              (replicate (Z.to_nat num_items) (InitValueV 1))
              h_keys_reference h_values_reference)
    as (aggs & HS & Hla & Hone); try lia; try done.
  { rewrite length_replicate. lia. }
  replace (Z.of_nat (sum_list lens)) with num_items in HS by lia.
  rewrite HS.
  rewrite (Hone (InitValueV 1)) by (f_equal; lia).
  exists lens. split; [done|]. split; [lia|]. split; [done|].
  split.
  - destruct lens; simpl in *; lia.
  - clear -Hpos. induction Hpos as [|len lens Hl _ IH]; simpl; lia.
Qed.
End TestPointerFacts.

(** ** Sums at an integer value type *)







(** At [char], 300 items in one segment: the reference value is 44. *)
Example TestPointer_reference_char :
  TestPointer_reference (fun key => key) (fun index => index) (fun _ _ _ => 2) false
    Equality 300 0 (-1) (Sum_at 8)
    (replicate 300 9) (replicate 300 7) (replicate 300 6) (replicate 300 8)
  = Some (Ok (replicate 300 0, replicate 300 1, 1,
              0 :: replicate 299 7, 44 :: replicate 299 8)).
Proof. vm_compute. reflexivity. Qed.

(** The host side of [TestPointer] on five items and on none. *)
Example TestPointer_reference_runs :
  TestPointer_reference (fun key => key) (fun index => index) (fun _ _ _ => 2) false
    Equality 5 0 3 Sum [9; 9; 9; 9; 9] [7; 7; 7; 7; 7] [6; 6; 6; 6; 6] [8; 8; 8; 8; 8]
  = Some (Ok ([0; 0; 1; 1; 2], [1; 1; 1; 1; 1], 3, [0; 1; 2; 7; 7], [2; 2; 1; 8; 8])) /\
  TestPointer_reference (fun key => key) (fun index => index) (fun _ _ _ => 2) false
    Equality 0 0 3 Sum [] [] [] []
  = Some (Undefined (OutOfBounds keys_in 0)).
Proof. split; reflexivity. Qed.

(** * The test drivers *)

Lemma Test_max_segment_loop_closed (fuel : nat) backend num_items reduction_op :
  (5 <= fuel)%nat ->
  Test_max_segment_loop fuel backend num_items reduction_op 3
  = (concat (Test_gen_modes backend num_items reduction_op
               <$> filter (fun m => m < Z.min num_items 65535) [3; 33; 363; 3993; 43923]),
     Finished).
Proof.
  intros Hfuel. do 5 (destruct fuel as [|fuel]; [lia|]). clear Hfuel.
  unfold Test_max_segment_loop, int_mul, INT_MIN, INT_MAX. simpl.
  rewrite !filter_cons, filter_nil.
  repeat case_decide; try lia; simpl; rewrite ?app_nil_r; try reflexivity;
    destruct fuel; simpl; repeat case_decide; try lia; reflexivity.
Qed.

(** X10.  The loop over the maximal segment lengths tries 3, 33, 363, 3993
    and 43923, in this order, as far as they are below [num_items] and below
    65535, each in its generation modes; it ends within five rounds, whatever
    [num_items] is, and its multiplication by 11 never overflows. *)
Theorem Test_max_segment_loop_values (fuel : nat) (backend : Backend) (num_items : Z)
    (reduction_op : ReductionOp) :
  (5 <= fuel)%nat ->
  Test_max_segment_loop fuel backend num_items reduction_op 3
  = (concat (Test_gen_modes backend num_items reduction_op
               <$> filter (fun m => m < Z.min num_items 65535) [3; 33; 363; 3993; 43923]),
     Finished).
Proof. apply Test_max_segment_loop_closed. Qed.

Lemma Test_max_segment_loop_values_witness :
  Test_max_segment_loop 6 CUB 100 OpSum 3
  = (concat (Test_gen_modes CUB 100 OpSum <$> [3; 33]), Finished).
Proof. apply (Test_max_segment_loop_values 6 CUB 100 OpSum). lia. Defined.

(** ** The calls the drivers make *)

Lemma Test_gen_modes_planned backend num_items reduction_op max_segment :
  (max_segment = -1 \/ max_segment = 1 \/
   (3 <= max_segment < 65535 /\ max_segment < num_items)) ->
  Forall (planned_call num_items)
    (Test_gen_modes backend num_items reduction_op max_segment) /\
  (1 <= length (Test_gen_modes backend num_items reduction_op max_segment) <= 3)%nat.
Proof.
  intros Hms. unfold Test_gen_modes, planned_call.
  case_decide; simpl; (split; [|lia]);
    repeat (apply Forall_cons_2; [simpl; lia|]); apply Forall_nil_2.
Qed.

Lemma Test_segment_lengths_spec backend num_items reduction_op :
  (Test_segment_lengths backend num_items reduction_op).2 = Finished /\
  Forall (planned_call num_items) (Test_segment_lengths backend num_items reduction_op).1 /\
  (2 <= length (Test_segment_lengths backend num_items reduction_op).1 <= 17)%nat.
Proof.
  unfold Test_segment_lengths.
  rewrite Test_max_segment_loop_closed by lia. cbn [fst snd].
  split; [done|].
  destruct (Test_gen_modes_planned backend num_items reduction_op (-1)) as [H1 L1]; [lia|].
  destruct (Test_gen_modes_planned backend num_items reduction_op 1) as [H2 L2]; [lia|].
  assert (HL : forall ms : list Z, Forall (fun m => 3 <= m <= 43923) ms ->
            Forall (planned_call num_items)
              (concat (Test_gen_modes backend num_items reduction_op
                         <$> filter (fun m => m < Z.min num_items 65535) ms)) /\
            (length (concat (Test_gen_modes backend num_items reduction_op
                               <$> filter (fun m => (m < Z.min num_items 65535)%Z) ms))
             <= 3 * length ms)%nat).
  { induction ms as [|m ms IH]; intros Hms; [split; [apply Forall_nil_2|simpl; lia]|].
    inversion Hms as [|? ? Hm Hms']; subst. destruct (IH Hms') as [IH1 IH2].
    rewrite filter_cons. case_decide; [|split; [done|simpl; lia]].
    rewrite fmap_cons. cbn [concat].
    destruct (Test_gen_modes_planned backend num_items reduction_op m) as [H3 L3]; [lia|].
    split; [by apply Forall_app|]. rewrite length_app. simpl in *. lia. }
  destruct (HL [3; 33; 363; 3993; 43923]) as [H3 L3].
  { repeat (apply Forall_cons_2; [lia|]). apply Forall_nil_2. }
  assert (Hm1 : length (Test_gen_modes backend num_items reduction_op (-1)) = 1%nat).
  { unfold Test_gen_modes. by rewrite decide_False by lia. }
  assert (Hm2 : length (Test_gen_modes backend num_items reduction_op 1) = 1%nat).
  { unfold Test_gen_modes. by rewrite decide_False by lia. }
  split.
  - apply Forall_app. split; [done|]. apply Forall_app. done.
  - rewrite !length_app, Hm1, Hm2. simpl in L3. lia.
Qed.

Lemma and_then_Finished (first second : list TestPointerCall * Ending) :
  first.2 = Finished -> and_then first second = (first.1 ++ second.1, second.2).
Proof. intros H. unfold and_then. by rewrite H. Qed.

Lemma TestDispatch_spec TEST_CDP num_items reduction_op :
  (TestDispatch TEST_CDP num_items reduction_op).2 = Finished /\
  Forall (planned_call num_items) (TestDispatch TEST_CDP num_items reduction_op).1 /\
  (length (TestDispatch TEST_CDP num_items reduction_op).1 <= 17)%nat /\
  (TEST_CDP = 0 \/ TEST_CDP = 1 ->
   (2 <= length (TestDispatch TEST_CDP num_items reduction_op).1)%nat).
Proof.
  unfold TestDispatch.
  pose proof (Test_segment_lengths_spec CUB num_items reduction_op) as (? & ? & ?).
  pose proof (Test_segment_lengths_spec CDP num_items reduction_op) as (? & ? & ?).
  repeat case_decide; simpl; repeat split; try done; try lia.
Qed.

Lemma TestSize_spec TEST_CDP num_items reduction_op :
  (TestSize TEST_CDP num_items reduction_op).2 = Finished /\
  Forall (fun c => planned_call (call_num_items c) c /\
                   (if decide (num_items < 0)
                    then call_num_items c ∈ [1; 100; 10000; 1000000]
                    else call_num_items c = num_items))
         (TestSize TEST_CDP num_items reduction_op).1 /\
  (length (TestSize TEST_CDP num_items reduction_op).1 <= 41)%nat.
Proof.
  assert (Hone : forall size,
            Forall (fun c => planned_call (call_num_items c) c /\ call_num_items c = size)
                   (TestDispatch TEST_CDP size reduction_op).1).
  { intros size. destruct (TestDispatch_spec TEST_CDP size reduction_op) as (_ & HF & _).
    eapply Forall_impl; [exact HF|]. intros c Hc. split; [|apply Hc].
    destruct Hc as [Hs Hc]. unfold planned_call. rewrite Hs. done. }
  unfold TestSize. case_decide as Hneg.
  - destruct (TestDispatch_spec TEST_CDP 1 reduction_op) as (E1 & _ & L1 & _).
    destruct (TestDispatch_spec TEST_CDP 100 reduction_op) as (E2 & _ & L2 & _).
    destruct (TestDispatch_spec TEST_CDP 10000 reduction_op) as (E3 & _ & L3 & _).
    destruct (TestDispatch_spec TEST_CDP 1000000 reduction_op) as (E4 & _ & L4 & _).
    assert (L1' : (length (TestDispatch TEST_CDP 1 reduction_op).1 <= 2)%nat).
    { unfold TestDispatch, Test_segment_lengths.
      rewrite !Test_max_segment_loop_closed by lia.
      repeat case_decide; simpl; lia. }
    assert (L2' : (length (TestDispatch TEST_CDP 100 reduction_op).1 <= 8)%nat).
    { unfold TestDispatch, Test_segment_lengths.
      rewrite !Test_max_segment_loop_closed by lia.
      repeat case_decide; simpl; lia. }
    assert (L3' : (length (TestDispatch TEST_CDP 10000 reduction_op).1 <= 14)%nat).
    { unfold TestDispatch, Test_segment_lengths.
      rewrite !Test_max_segment_loop_closed by lia.
      repeat case_decide; simpl; lia. }
    rewrite !and_then_Finished by (rewrite ?and_then_Finished; done).
    cbn [fst snd]. split; [done|]. split.
    + repeat (apply Forall_app; split);
        (eapply Forall_impl; [apply Hone|]); intros c [Hp Hs];
        (split; [done|]); rewrite Hs; repeat constructor.
    + rewrite !length_app. lia.
  - destruct (TestDispatch_spec TEST_CDP num_items reduction_op) as (E & _ & L & _).
    split; [done|]. split; [|lia]. apply Hone.
Qed.

(** The calls of [TestOp]. *)
Lemma TestOp_spec (TEST_CDP num_items : Z) :
  (TestOp TEST_CDP num_items).2 = Finished /\
  (length (TestOp TEST_CDP num_items).1 <= 82)%nat /\
  Forall (fun c => planned_call (call_num_items c) c /\
                   (if decide (num_items < 0)
                    then call_num_items c ∈ [1; 100; 10000; 1000000]
                    else call_num_items c = num_items))
         (TestOp TEST_CDP num_items).1.
Proof.
  unfold TestOp.
  destruct (TestSize_spec TEST_CDP num_items OpSum) as (E1 & F1 & L1).
  destruct (TestSize_spec TEST_CDP num_items OpMax) as (E2 & F2 & L2).
  rewrite and_then_Finished by done. cbn [fst snd].
  split; [done|]. split; [rewrite length_app; lia|]. by apply Forall_app.
Qed.

(** X11.  Whatever [num_items] is, [TestOp] returns after at most 82 calls of
    [TestPointer].  Every call is for one of the sizes 1, 100, 10000 and
    1000000 when [num_items] is negative, and for [num_items] itself, 0
    included, otherwise; its [max_segment] is -1, 1, or a value from 3 on
    that is below 65535 and below its size; its entropy reduction is 0, or 2
    or 7 with a [max_segment] above 1. *)
Theorem TestOp_calls (TEST_CDP num_items : Z) :
  (TestOp TEST_CDP num_items).2 = Finished /\
  (length (TestOp TEST_CDP num_items).1 <= 82)%nat /\
  Forall (fun c => planned_call (call_num_items c) c /\
                   (if decide (num_items < 0)
                    then call_num_items c ∈ [1; 100; 10000; 1000000]
                    else call_num_items c = num_items))
         (TestOp TEST_CDP num_items).1.
Proof. apply TestOp_spec. Qed.

(** The calls for 100 items with the sum: one segment, segments of one item,
    then segments of at most 3 and of at most 33 items in three modes each. *)
Example TestDispatch_100 :
  TestDispatch 0 100 OpSum
  = ([mkTestPointerCall CUB 100 0 (-1) OpSum; mkTestPointerCall CUB 100 0 1 OpSum;
      mkTestPointerCall CUB 100 0 3 OpSum; mkTestPointerCall CUB 100 2 3 OpSum;
      mkTestPointerCall CUB 100 7 3 OpSum; mkTestPointerCall CUB 100 0 33 OpSum;
      mkTestPointerCall CUB 100 2 33 OpSum; mkTestPointerCall CUB 100 7 33 OpSum],
     Finished).
Proof. reflexivity. Qed.

(** ** What the calls run into *)

(** X12.  In the default run ([num_items] negative) the host side of every
    call of [TestPointer] runs through, whatever the reduction operator and
    whatever is drawn for the lengths of the segments, as long as no draw
    exceeds [max_segment]: the arrays are filled within bounds, [Solve] gets
    at least one item, and the number of segments it returns is between 1
    and the size of the problem.  The key values are taken to tell
    neighbouring segments apart. *)
Theorem default_run_has_no_host_fault {KeyT ValueT : Type}
    (InitValueK : Z -> KeyT) (InitValueV : Z -> ValueT) (g_verbose : bool)
    (equality_op : KeyT -> KeyT -> bool) (TEST_CDP num_items : Z) :
  (forall key, equality_op (InitValueK key) (InitValueK key) = true) ->
  (forall key, equality_op (InitValueK key) (InitValueK (key + 1)) = false) ->
  num_items < 0 ->
  Forall (fun c =>
            forall (scaled_random : Z -> Z -> Z -> Z)
                   (reduction_op : ValueT -> ValueT -> ValueT)
                   (h_keys_in h_keys_reference : list KeyT)
                   (h_values_in h_values_reference : list ValueT),
              (forall key, scaled_random (call_entropy_reduction c) (call_max_segment c) key
                           <= call_max_segment c) ->
              Z.of_nat (length h_keys_in) = call_num_items c ->
              Z.of_nat (length h_keys_reference) = call_num_items c ->
              Z.of_nat (length h_values_in) = call_num_items c ->
              Z.of_nat (length h_values_reference) = call_num_items c ->
              exists keys values num_segments kr vr,
                TestPointer_reference InitValueK InitValueV scaled_random g_verbose
                  equality_op (call_num_items c) (call_entropy_reduction c)
                  (call_max_segment c) reduction_op
                  h_keys_in h_keys_reference h_values_in h_values_reference
                = Some (Ok (keys, values, num_segments, kr, vr)) /\
                1 <= num_segments <= call_num_items c)
         (TestOp TEST_CDP num_items).1.
Proof.
  intros Hsame Hnext Hneg.
  destruct (TestOp_spec TEST_CDP num_items) as (_ & _ & HF).
  eapply Forall_impl; [exact HF|]. intros c [Hp Hsize].
  rewrite decide_True in Hsize by done.
  intros scaled_random reduction_op hk hkr hv hvr Hrand Hk Hkr Hv Hvr.
  assert (Hn : 1 <= call_num_items c <= 1000000).
  { apply list_elem_of_In in Hsize. simpl in Hsize. lia. }
  destruct Hp as (_ & Hms & _).
  destruct (TestPointer_reference_spec InitValueK InitValueV scaled_random g_verbose
              equality_op Hsame Hnext (call_num_items c) (call_entropy_reduction c)
              (call_max_segment c) reduction_op hk hkr hv hvr)
    as (lens & HT & Hsum & _ & Hlen); try done.
  - unfold INT_MAX. lia.
  - intros _. split; [unfold INT_MAX; lia | apply Hrand].
  - eexists _, _, _, _, _. split; [exact HT|]. lia.
Qed.

Lemma default_run_has_no_host_fault_witness :
  Forall (fun c =>
            forall (scaled_random : Z -> Z -> Z -> Z)
                   (reduction_op : Z -> Z -> Z)
                   (h_keys_in h_keys_reference : list Z)
                   (h_values_in h_values_reference : list Z),
              (forall key, scaled_random (call_entropy_reduction c) (call_max_segment c) key
                           <= call_max_segment c) ->
              Z.of_nat (length h_keys_in) = call_num_items c ->
              Z.of_nat (length h_keys_reference) = call_num_items c ->
              Z.of_nat (length h_values_in) = call_num_items c ->
              Z.of_nat (length h_values_reference) = call_num_items c ->
              exists keys values num_segments kr vr,
                TestPointer_reference (fun key => key) (fun index => index)
                  scaled_random false
                  Equality (call_num_items c) (call_entropy_reduction c)
                  (call_max_segment c) reduction_op
                  h_keys_in h_keys_reference h_values_in h_values_reference
                = Some (Ok (keys, values, num_segments, kr, vr)) /\
                1 <= num_segments <= call_num_items c)
         (TestOp 0 (-1)).1.
Proof.
  apply (default_run_has_no_host_fault (fun key => key) (fun index => index)
           false Equality 0 (-1)).
  - intros key. unfold Equality. apply Z.eqb_refl.
  - intros key. unfold Equality. apply Z.eqb_neq. lia.
  - lia.
Defined.

Lemma TestPointer_reference_zero {KeyT ValueT : Type}
    (InitValueK : Z -> KeyT) (InitValueV : Z -> ValueT)
    (scaled_random : Z -> Z -> Z -> Z) (g_verbose : bool)
    (equality_op : KeyT -> KeyT -> bool) entropy_reduction max_segment
    (reduction_op : ValueT -> ValueT -> ValueT) :
  TestPointer_reference InitValueK InitValueV scaled_random g_verbose equality_op
    0 entropy_reduction max_segment reduction_op [] [] [] []
  = Some (Undefined (OutOfBounds keys_in 0)).
Proof. reflexivity. Qed.

(** X13.  With [num_items = 0] the drivers still call [TestPointer], twice
    for each reduction operator (one segment, and segments of one item), and
    each call, on the empty arrays of an empty problem, generates nothing and
    then ends in the read of [Solve] at index 0, out of bounds. *)
Theorem zero_items_run_reaches_Solve {KeyT ValueT : Type}
    (InitValueK : Z -> KeyT) (InitValueV : Z -> ValueT)
    (scaled_random : Z -> Z -> Z -> Z) (g_verbose : bool)
    (equality_op : KeyT -> KeyT -> bool) :
  (TestOp 0 0).1
  = [mkTestPointerCall CUB 0 0 (-1) OpSum; mkTestPointerCall CUB 0 0 1 OpSum;
     mkTestPointerCall CUB 0 0 (-1) OpMax; mkTestPointerCall CUB 0 0 1 OpMax] /\
  (forall TEST_CDP,
     Forall (fun c =>
               call_num_items c = 0 /\
               forall reduction_op : ValueT -> ValueT -> ValueT,
                 TestPointer_reference InitValueK InitValueV scaled_random g_verbose
                   equality_op (call_num_items c) (call_entropy_reduction c)
                   (call_max_segment c) reduction_op [] [] [] []
                 = Some (Undefined (OutOfBounds keys_in 0)))
            (TestOp TEST_CDP 0).1).
Proof.
  split; [reflexivity|]. intros TEST_CDP.
  destruct (TestOp_spec TEST_CDP 0) as (_ & _ & HF).
  eapply Forall_impl; [exact HF|]. intros c [_ Hsize].
  rewrite decide_False in Hsize by lia. split; [done|].
  intros reduction_op. rewrite Hsize. apply TestPointer_reference_zero.
Qed.
